(** * kerykeion.charts.charts_utils: chart geometry and SVG fragments

    A shallow embedding of [kerykeion/charts/charts_utils.py].

    Number model.  The geometric functions ([sliceToX], [sliceToY],
    [degreeDiff] and the ring, house and aspect renderers built on them) are
    embedded over the real numbers [R]: a Python float is read as the real it
    denotes and float rounding is not modelled.  The formatters
    ([convert_decimal_to_degree_string], the coordinate converters and
    [draw_elements_percentages]) only add, multiply, divide, truncate and
    round, so they are embedded over the exact rationals [Q] and evaluate.

    String model.  A Python [str] is a [string] of UTF-8 bytes.  The text a
    float prints as ([str(x)] and [{x}] inside an f-string) is not a function
    of the real it denotes that this development could define, so the
    renderers that print floats take it as the parameter [str_float]. *)

From Stdlib Require Import ZArith QArith Qabs Qround Reals Lra Lia Psatz.
From Stdlib Require Import List String Ascii DecimalString Bool.
Import ListNotations.

Set Implicit Arguments.

(** ** Exceptions and results *)

Inductive exn : Type :=
| KerykeionException (msg : string)
| ZeroDivisionError
| IndexError
| TypeError.

Inductive result (A : Type) : Type :=
| Ok (a : A)
| Raise (e : exn).

Arguments Ok {A} a.
Arguments Raise {A} e.

Definition bind {A B : Type} (m : result A) (k : A -> result B) : result B :=
  match m with
  | Ok a => k a
  | Raise e => Raise e
  end.

Notation "x <- m ;; k" := (bind m (fun x => k))
  (at level 61, m at next level, right associativity).

(** [for x in xs: acc = body(acc, x)], leaving at the first exception. *)
Fixpoint for_each {A S : Type} (xs : list A) (acc : S)
    (body : S -> A -> result S) : result S :=
  match xs with
  | [] => Ok acc
  | x :: xs' => acc' <- body acc x ;; for_each xs' acc' body
  end.

(** [xs[i]] for a non-negative index. *)
Definition getitem {A : Type} (xs : list A) (i : nat) : result A :=
  match nth_error xs i with
  | Some x => Ok x
  | None => Raise IndexError
  end.

(** ** Strings *)

Open Scope string_scope.

Definition dquote : string := String (ascii_of_nat 34) EmptyString.

(** Literal templates are written with a backquote where the Python source
    has a double quote; [q] puts the double quotes back.  It is applied to
    literal text only, never to an interpolated value. *)
Fixpoint q (s : string) : string :=
  match s with
  | EmptyString => EmptyString
  | String c s' =>
      String (if Ascii.eqb c "`"%char then ascii_of_nat 34 else c) (q s')
  end.

(** [str(n)] for an [int]. *)
Definition str_int (n : Z) : string := NilZero.string_of_int (Z.to_int n).

(** [f"{n:02d}"]: sign-aware zero padding to width two. *)
Definition fmt_02d (n : Z) : string :=
  let digits := str_int (Z.abs n) in
  let sign := if (n <? 0)%Z then "-" else EmptyString in
  let width := (String.length sign + String.length digits)%nat in
  sign ++ (if (width <? 2)%nat then "0" else EmptyString) ++ digits.

(** ** Numbers of the formatters: exact rationals *)

Open Scope Q_scope.

(** [int(x)]: truncation toward zero. *)
Definition py_int (x : Q) : Z := Z.quot (Qnum x) (Zpos (Qden x)).

(** [round(x)] with one argument: nearest integer, ties to the even one. *)
Definition py_round (x : Q) : Z :=
  let f := Qfloor x in
  match Qcompare (x - inject_Z f) (1 # 2) with
  | Lt => f
  | Gt => (f + 1)%Z
  | Eq => if Z.even f then f else (f + 1)%Z
  end.

(** [a / b]: true division, which raises on a zero divisor. *)
Definition true_div (a b : Q) : result Q :=
  if Qeq_bool b 0 then Raise ZeroDivisionError else Ok (a / b).

(** ** DegreeFormatter *)

Definition convert_latitude_coordinate_to_string
    (coord : Q) (north_label south_label : string) : string :=
  let sign := north_label in
  let '(sign, coord) :=
    if Qlt_le_dec coord 0 then (south_label, Qabs coord) else (sign, coord) in
  let deg := py_int coord in
  let min := py_int ((coord - inject_Z deg) * 60) in
  let sec := py_round ((((coord - inject_Z deg) * 60) - inject_Z min) * 60) in
  str_int deg ++ "°" ++ str_int min ++ "'" ++ str_int sec ++ dquote
    ++ " " ++ sign.

Definition convert_longitude_coordinate_to_string
    (coord : Q) (east_label west_label : string) : string :=
  let sign := east_label in
  let '(sign, coord) :=
    if Qlt_le_dec coord 0 then (west_label, Qabs coord) else (sign, coord) in
  let deg := py_int coord in
  let min := py_int ((coord - inject_Z deg) * 60) in
  let sec := py_round ((((coord - inject_Z deg) * 60) - inject_Z min) * 60) in
  str_int deg ++ "°" ++ str_int min ++ "'" ++ str_int sec ++ dquote
    ++ " " ++ sign.

(** The numeric fields of [convert_decimal_to_degree_string]. *)
Definition dms_a (dec : Q) : Z := py_int dec.
Definition dms_a_new (dec : Q) : Q := (dec - inject_Z (dms_a dec)) * 60.
Definition dms_b_rounded (dec : Q) : Z := py_round (dms_a_new dec).
Definition dms_b (dec : Q) : Z := py_int (dms_a_new dec).
Definition dms_c (dec : Q) : Z :=
  py_round ((dms_a_new dec - inject_Z (dms_b dec)) * 60).

(** The values a caller passes as the precision level [type]: a [str], as
    the default ["3"] and the docstring have it, or an [int]. *)
Inductive pyval : Type :=
| PyStr (s : string)
| PyInt (n : Z).

(** [str(v)], as an f-string prints [v]. *)
Definition str_pyval (v : pyval) : string :=
  match v with
  | PyStr s => s
  | PyInt n => str_int n
  end.

(** [v == s] for a string literal [s]: an [int] is never equal to a [str]. *)
Definition py_eq_str (v : pyval) (s : string) : bool :=
  match v with
  | PyStr t => String.eqb t s
  | PyInt _ => false
  end.

Definition convert_decimal_to_degree_string (dec : Q) (type : pyval)
    : result string :=
  let a := dms_a dec in
  let b_rounded := dms_b_rounded dec in
  let b := dms_b dec in
  let c := dms_c dec in
  if py_eq_str type "3" then
    Ok (fmt_02d a ++ "&#176;" ++ fmt_02d b ++ "&#39;" ++ fmt_02d c ++ "&#34;")
  else if py_eq_str type "2" then
    Ok (fmt_02d a ++ "&#176;" ++ fmt_02d b_rounded ++ "&#39;")
  else if py_eq_str type "1" then
    Ok (fmt_02d a ++ "&#176;")
  else
    Raise (KerykeionException
             ("Wrong type: " ++ str_pyval type ++ ", it must be 1, 2 or 3.")).

(** ** SummaryRenderer *)

Definition draw_elements_percentages
    (fire_label : string) (fire_points : Q)
    (earth_label : string) (earth_points : Q)
    (air_label : string) (air_points : Q)
    (water_label : string) (water_points : Q) : result string :=
  let total := fire_points + earth_points + air_points + water_points in
  fire_share <- true_div (100 * fire_points) total ;;
  let fire_percentage := py_round fire_share in
  earth_share <- true_div (100 * earth_points) total ;;
  let earth_percentage := py_round earth_share in
  air_share <- true_div (100 * air_points) total ;;
  let air_percentage := py_round air_share in
  water_share <- true_div (100 * water_points) total ;;
  let water_percentage := py_round water_share in
  let out := q "<g transform=`translate(-30,79)`>" in
  let out := out ++ q "<text y=`0` style=`fill:#ff6600; font-size: 10px;`>"
    ++ fire_label ++ "  " ++ str_int fire_percentage ++ "%</text>" in
  let out := out ++ q "<text y=`12` style=`fill:#6a2d04; font-size: 10px;`>"
    ++ earth_label ++ " " ++ str_int earth_percentage ++ "%</text>" in
  let out := out ++ q "<text y=`24` style=`fill:#6f76d1; font-size: 10px;`>"
    ++ air_label ++ "   " ++ str_int air_percentage ++ "%</text>" in
  let out := out ++ q "<text y=`36` style=`fill:#630e73; font-size: 10px;`>"
    ++ water_label ++ " " ++ str_int water_percentage ++ "%</text>" in
  let out := out ++ "</g>" in
  Ok out.

Close Scope Q_scope.

(** ** CoordinateProjector: numbers of the geometry are reals *)

Open Scope R_scope.

(** [int(x)] on a real: truncation toward zero. *)
Definition trunc (x : R) : Z :=
  if Rle_dec 0 x then Int_part x else (- Int_part (- x))%Z.

Definition degreeDiff (a b : R) : R :=
  let out := 0 in
  let out := if Rgt_dec a b then a - b else out in
  let out := if Rlt_dec a b then b - a else out in
  let out := if Rgt_dec out 180 then 360 - out else out in
  out.

Definition sliceToX (slice radius offset : R) : R :=
  let plus := (PI * offset) / 180 in
  let radial := ((PI / 6) * slice) + plus in
  radius * (cos radial + 1).

Definition sliceToY (slice r offset : R) : R :=
  let plus := (PI * offset) / 180 in
  let radial := ((PI / 6) * slice) + plus in
  r * ((sin radial / -1) + 1).

(** ** Data model *)

Inductive ChartType : Type := Natal | ExternalNatal | Synastry | Transit.

(** [chart_type == "Transit" or chart_type == "Synastry"]. *)
Definition is_transit_or_synastry (chart_type : ChartType) : bool :=
  match chart_type with
  | Transit | Synastry => true
  | Natal | ExternalNatal => false
  end.

(** The keys of a planet that the renderers read. *)
Record Planet : Type := {
  planet_id : Z;
  planet_name : string;
  is_active : bool
}.

(** The keys of an aspect dictionary that the renderers read. *)
Record Aspect : Type := {
  p1 : Z;
  p1_name : string;
  p1_abs_pos : R;
  p2 : Z;
  p2_name : string;
  p2_abs_pos : R;
  aspect_degrees : Z
}.

(** ** Renderers that print floats *)

Section FloatPrinting.

(** The text of a float, [str(x)]. *)
Variable str_float : R -> string.

(** *** RingRenderer: the degree ticks *)

(** The offset of tick [i], as both tick loops compute it before they call
    the projection. *)
Definition degree_step_offset (i : nat) (seventh_house_degree_ut : R) : R :=
  let offset := INR (i * 5) - seventh_house_degree_ut in
  if Rlt_dec offset 0 then offset + 360
  else if Rgt_dec offset 360 then offset - 360
  else offset.

(** The [<line>] a tick loop appends once the four coordinates are known. *)
Definition degree_step_line (x1 y1 x2 y2 : R) (stroke : string) : string :=
  q "<line x1=`" ++ str_float x1 ++ q "` y1=`" ++ str_float y1
    ++ q "` x2=`" ++ str_float x2 ++ q "` y2=`" ++ str_float y2
    ++ q "` style=`stroke: " ++ stroke
    ++ q "; stroke-width: 1px; stroke-opacity:.9;`/>".

Definition transit_ring_degree_step (r seventh_house_degree_ut : R) (i : nat)
    : string :=
  let offset := degree_step_offset i seventh_house_degree_ut in
  let x1 := sliceToX 0 r offset in
  let y1 := sliceToY 0 r offset in
  let x2 := sliceToX 0 (r + 2) offset - 2 in
  let y2 := sliceToY 0 (r + 2) offset - 2 in
  degree_step_line x1 y1 x2 y2 "#F00".

Definition draw_transit_ring_degree_steps (r seventh_house_degree_ut : R)
    : string :=
  let out := q "<g id=`transitRingDegreeSteps`>" in
  let out :=
    fold_left
      (fun out i => out ++ transit_ring_degree_step r seventh_house_degree_ut i)
      (seq 0 72) out in
  let out := out ++ "</g>" in
  out.

Definition degree_ring_step (r c1 seventh_house_degree_ut : R)
    (stroke_color : string) (i : nat) : string :=
  let offset := degree_step_offset i seventh_house_degree_ut in
  let x1 := sliceToX 0 (r - c1) offset + c1 in
  let y1 := sliceToY 0 (r - c1) offset + c1 in
  let x2 := sliceToX 0 (r + 2 - c1) offset - 2 + c1 in
  let y2 := sliceToY 0 (r + 2 - c1) offset - 2 + c1 in
  degree_step_line x1 y1 x2 y2 stroke_color.

Definition draw_degree_ring (r c1 seventh_house_degree_ut : R)
    (stroke_color : string) : string :=
  let out := q "<g id=`degreeRing`>" in
  let out :=
    fold_left
      (fun out i =>
         out ++ degree_ring_step r c1 seventh_house_degree_ut stroke_color i)
      (seq 0 72) out in
  let out := out ++ "</g>" in
  out.

(** *** AspectRenderer: the aspect line *)

(** The two offsets and the four coordinates of the line. *)
Definition aspect_line_endpoints (r ar : R) (aspect_dict : Aspect)
    (seventh_house_degree_ut : R) : R * R * R * R :=
  let first_offset :=
    (IZR (trunc seventh_house_degree_ut) / -1)
    + IZR (trunc (p1_abs_pos aspect_dict)) in
  let x1 := sliceToX 0 ar first_offset + (r - ar) in
  let y1 := sliceToY 0 ar first_offset + (r - ar) in
  let second_offset :=
    (IZR (trunc seventh_house_degree_ut) / -1)
    + IZR (trunc (p2_abs_pos aspect_dict)) in
  let x2 := sliceToX 0 ar second_offset + (r - ar) in
  let y2 := sliceToY 0 ar second_offset + (r - ar) in
  (x1, y1, x2, y2).

(** The opening [<g>] tag with the [kr:] attributes. *)
Definition aspect_line_group (aspect_dict : Aspect) : string :=
  q "<g kr:node=`Aspect` kr:to=`" ++ p1_name aspect_dict
    ++ q "` kr:tooriginaldegrees=`" ++ str_float (p1_abs_pos aspect_dict)
    ++ q "` kr:from=`" ++ p2_name aspect_dict
    ++ q "` kr:fromoriginaldegrees=`" ++ str_float (p2_abs_pos aspect_dict)
    ++ q "`>".

(** The [<line>] element. *)
Definition aspect_line_element (endpoints : R * R * R * R) (color : string)
    : string :=
  let '(x1, y1, x2, y2) := endpoints in
  q "<line class=`aspect` x1=`" ++ str_float x1 ++ q "` y1=`" ++ str_float y1
    ++ q "` x2=`" ++ str_float x2 ++ q "` y2=`" ++ str_float y2
    ++ q "` style=`stroke: " ++ color
    ++ q "; stroke-width: 1; stroke-opacity: .9;`/>".

Definition draw_aspect_line (r ar : R) (aspect_dict : Aspect) (color : string)
    (seventh_house_degree_ut : R) : string :=
  let endpoints :=
    aspect_line_endpoints r ar aspect_dict seventh_house_degree_ut in
  let out := EmptyString in
  let out := out ++ aspect_line_group aspect_dict in
  let out := out ++ aspect_line_element endpoints color in
  let out := out ++ "</g>" in
  out.

(** *** HouseRenderer *)

(** The [Cusp] group of the first subject's house. *)
Definition house_cusp_fragment (x1 y1 x2 y2 : R) (linecolor : string)
    : string :=
  q "<g kr:node=`Cusp`>"
    ++ (q "<line x1=`" ++ str_float x1 ++ q "` y1=`" ++ str_float y1
          ++ q "` x2=`" ++ str_float x2 ++ q "` y2=`" ++ str_float y2
          ++ q "` style=`stroke: " ++ linecolor
          ++ q "; stroke-width: 1px; stroke-dasharray:3,2; stroke-opacity:.4;`/>")
    ++ "</g>".

(** A [HouseNumber] group; [fill] is the text fill with its opacity. *)
Definition house_number_fragment (fill : string) (xtext ytext : R) (i : nat)
    : string :=
  q "<g kr:node=`HouseNumber`>"
    ++ (q "<text style=`fill: " ++ fill ++ q "; font-size: 14px`><tspan x=`"
          ++ str_float (xtext - 3) ++ q "` y=`" ++ str_float (ytext + 3)
          ++ q "`>" ++ str_int (Z.of_nat (i + 1)) ++ "</tspan></text>")
    ++ "</g>".

(** The [Cusp] group of the second subject's house. *)
Definition transit_cusp_fragment (t_x1 t_y1 t_x2 t_y2 : R)
    (t_linecolor stroke_opacity : string) : string :=
  q "<g kr:node=`Cusp`>"
    ++ ("<line x1='" ++ str_float t_x1 ++ "' y1='" ++ str_float t_y1
          ++ "' x2='" ++ str_float t_x2 ++ "' y2='" ++ str_float t_y2
          ++ "' style='stroke: " ++ t_linecolor
          ++ "; stroke-width: 1px; stroke-opacity:" ++ stroke_opacity ++ ";'/>")
    ++ "</g>".

(** The colour of cusp line [i]. *)
Definition house_linecolor (i : nat)
    (standard_house_color first_house_color tenth_house_color
     seventh_house_color fourth_house_color : string) : string :=
  if (i =? 0)%nat then first_house_color
  else if (i =? 9)%nat then tenth_house_color
  else if (i =? 6)%nat then seventh_house_color
  else if (i =? 3)%nat then fourth_house_color
  else standard_house_color.

Section Houses.

Variables (r : R) (first_subject_houses_list_ut : list R).
Variables (standard_house_color first_house_color tenth_house_color
           seventh_house_color fourth_house_color : string).
Variables (c1 c3 : R) (chart_type : ChartType).
Variable second_subject_houses_list_ut : option (list R).

(** [second_subject_houses_list_ut[i]]. *)
Definition second_subject_house (i : nat) : result R :=
  match second_subject_houses_list_ut with
  | Some houses => getitem houses i
  | None => Raise TypeError
  end.

(** The part of the loop body that draws the second subject's house. *)
Definition transit_house (path : string) (i : nat) (linecolor : string)
    : result string :=
  let t_roff := 36 in
  seventh <- getitem first_subject_houses_list_ut 6 ;;
  let zeropoint := 360 - seventh in
  second_i <- second_subject_house i ;;
  let t_offset := zeropoint + second_i in
  let t_offset := if Rgt_dec t_offset 360 then t_offset - 360 else t_offset in
  let t_x1 := sliceToX 0 (r - t_roff) t_offset + t_roff in
  let t_y1 := sliceToY 0 (r - t_roff) t_offset + t_roff in
  let t_x2 := sliceToX 0 r t_offset in
  let t_y2 := sliceToY 0 r t_offset in
  t_text_offset <-
    (if (i <? 11)%nat then
       next <- second_subject_house (i + 1) ;;
       this <- second_subject_house i ;;
       Ok (t_offset + IZR (trunc (degreeDiff next this / 2)))
     else
       first <- second_subject_house 0 ;;
       last <- second_subject_house 11 ;;
       Ok (t_offset + IZR (trunc (degreeDiff first last / 2)))) ;;
  let t_linecolor :=
    if ((i =? 0) || (i =? 9) || (i =? 6) || (i =? 3))%nat then linecolor
    else standard_house_color in
  let xtext := sliceToX 0 (r - 8) t_text_offset + 8 in
  let ytext := sliceToY 0 (r - 8) t_text_offset + 8 in
  match chart_type with
  | Transit =>
      let path :=
        path ++ house_number_fragment "#00f; fill-opacity: 0" xtext ytext i in
      let path :=
        path ++ transit_cusp_fragment t_x1 t_y1 t_x2 t_y2 t_linecolor "0" in
      Ok path
  | _ =>
      let path :=
        path ++ house_number_fragment "#00f; fill-opacity: .4" xtext ytext i in
      let path :=
        path ++ transit_cusp_fragment t_x1 t_y1 t_x2 t_y2 t_linecolor ".3" in
      Ok path
  end.

(** One turn of the loop over the twelve houses. *)
Definition house_step (path : string) (i : nat) : result string :=
  let xr := 12%nat in
  let '(dropin, roff) :=
    if is_transit_or_synastry chart_type then (160, 72) else (c3, c1) in
  seventh <- getitem first_subject_houses_list_ut (xr / 2) ;;
  this <- getitem first_subject_houses_list_ut i ;;
  let offset := (IZR (trunc seventh) / -1) + IZR (trunc this) in
  let x1 := sliceToX 0 (r - dropin) offset + dropin in
  let y1 := sliceToY 0 (r - dropin) offset + dropin in
  let x2 := sliceToX 0 (r - roff) offset + roff in
  let y2 := sliceToY 0 (r - roff) offset + roff in
  text_offset <-
    (if (i <? xr - 1)%nat then
       next <- getitem first_subject_houses_list_ut (i + 1) ;;
       this <- getitem first_subject_houses_list_ut i ;;
       Ok (offset + IZR (trunc (degreeDiff next this / 2)))
     else
       first <- getitem first_subject_houses_list_ut 0 ;;
       last <- getitem first_subject_houses_list_ut (xr - 1) ;;
       Ok (offset + IZR (trunc (degreeDiff first last / 2)))) ;;
  let linecolor :=
    house_linecolor i standard_house_color first_house_color
      tenth_house_color seventh_house_color fourth_house_color in
  path <-
    (if is_transit_or_synastry chart_type
     then transit_house path i linecolor
     else Ok path) ;;
  let dropin :=
    match chart_type with
    | Transit | Synastry => 84
    | ExternalNatal => 100
    | Natal => 48
    end in
  let xtext := sliceToX 0 (r - dropin) text_offset + dropin in
  let ytext := sliceToY 0 (r - dropin) text_offset + dropin in
  let path := path ++ house_cusp_fragment x1 y1 x2 y2 linecolor in
  let path :=
    path ++ house_number_fragment "#f00; fill-opacity: .6" xtext ytext i in
  Ok path.

Definition draw_houses_cusps_and_text_number : result string :=
  match is_transit_or_synastry chart_type, second_subject_houses_list_ut with
  | true, None =>
      Raise (KerykeionException "second_subject_houses_list is None")
  | _, _ =>
      let path := EmptyString in
      let xr := 12%nat in
      for_each (seq 0 xr) path house_step
  end.

End Houses.

End FloatPrinting.

Close Scope R_scope.

(** ** AspectRenderer: the aspect grid *)

Open Scope Z_scope.

(** [str(n * 2.5)] for an [int] [n]: the product is a whole number or a
    whole number and a half, printed with one decimal. *)
Definition str_times_2_5 (n : Z) : string :=
  let m := 5 * n in
  str_int (Z.quot m 2) ++ (if Z.even m then ".0" else ".5").

Definition aspect_grid_rect (style : string) (x y box : Z) : string :=
  q "<rect x=`" ++ str_int x ++ q "` y=`" ++ str_int y
    ++ q "` width=`" ++ str_int box ++ q "` height=`" ++ str_int box
    ++ q "` style=`" ++ style ++ q "`/>".

Definition aspect_grid_planet_use (xindent yindent : Z) (a : Planet) : string :=
  q "<use transform=`scale(0.4)` x=`" ++ str_times_2_5 (xindent + 2)
    ++ q "` y=`" ++ str_times_2_5 (yindent + 1)
    ++ q "` xlink:href=`#" ++ planet_name a ++ q "` />".

Definition aspect_grid_orb_use (xorb yorb box : Z) (aspect : Aspect) : string :=
  q "<use  x=`" ++ str_int (xorb - box + 1) ++ q "` y=`" ++ str_int (yorb + 1)
    ++ q "` xlink:href=`#orb" ++ str_int (aspect_degrees aspect) ++ q "` />".

(** The test of the innermost loop. *)
Definition aspect_joins (aspect : Aspect) (a b : Planet) : bool :=
  ((p1 aspect =? planet_id a) && (p2 aspect =? planet_id b))
  || ((p1 aspect =? planet_id b) && (p2 aspect =? planet_id a)).

(** The local [counter] of the source is incremented and never read; it is
    left out. *)
Definition draw_aspect_grid (stroke_color : string)
    (available_planets_list : list Planet) (aspects_list : list Aspect)
    : string :=
  let out := EmptyString in
  let style :=
    "stroke:" ++ stroke_color
      ++ "; stroke-width: 1px; stroke-opacity:.6; fill:none" in
  let xindent := 380 in
  let yindent := 468 in
  let box := 14 in
  let actual_planets :=
    fold_left
      (fun actual_planets planet =>
         if is_active planet then (actual_planets ++ [planet])%list
         else actual_planets)
      available_planets_list [] in
  let first_iteration_revers_planets := rev actual_planets in
  let '(out, _, _) :=
    fold_left
      (fun '(out, xindent, yindent) '(index, a) =>
         let out := out ++ aspect_grid_rect style xindent yindent box in
         let out := out ++ aspect_grid_planet_use xindent yindent a in
         let xindent := xindent + box in
         let yindent := yindent - box in
         let xorb := xindent in
         let yorb := yindent + box in
         let second_iteration_revers_planets :=
           skipn (index + 1) first_iteration_revers_planets in
         let '(out, _) :=
           fold_left
             (fun '(out, xorb) b =>
                let out := out ++ aspect_grid_rect style xorb yorb box in
                let xorb := xorb + box in
                let out :=
                  fold_left
                    (fun out aspect =>
                       if aspect_joins aspect a b
                       then out ++ aspect_grid_orb_use xorb yorb box aspect
                       else out)
                    aspects_list out in
                (out, xorb))
             second_iteration_revers_planets (out, xorb) in
         (out, xindent, yindent))
      (combine (seq 0 (List.length first_iteration_revers_planets))
               first_iteration_revers_planets)
      (out, xindent, yindent) in
  out.

Close Scope Z_scope.

(** ** CoordinateProjector: time zone offsets *)

(** The attributes of a [datetime.timedelta]. *)
Record timedelta : Type := {
  days : Z;
  seconds : Z;
  microseconds : Z
}.

Definition offsetToTz (datetime_offset : option timedelta) : result Q :=
  match datetime_offset with
  | None => Raise (KerykeionException "datetime_offset is None")
  | Some datetime_offset =>
      let dh := inject_Z (days datetime_offset * 24) in
      let sh := (inject_Z (seconds datetime_offset) / 3600)%Q in
      let output := (dh + sh)%Q in
      Ok output
  end.

(** ** RingRenderer: circles *)

Section RingPrinting.

Open Scope R_scope.

Variable str_float : R -> string.

Definition draw_first_circle (r : R) (stroke_color : string)
    (chart_type : ChartType) (c1 : option R) : result string :=
  if is_transit_or_synastry chart_type then
    Ok (q "<circle cx=`" ++ str_float r ++ q "` cy=`" ++ str_float r
          ++ q "` r=`" ++ str_float (r - 36)
          ++ q "` style=`fill: none; stroke: " ++ stroke_color
          ++ q "; stroke-width: 1px; stroke-opacity:.4;` />")
  else
    match c1 with
    | None => Raise (KerykeionException "c1 is None")
    | Some c1 =>
        Ok (q "<circle cx=`" ++ str_float r ++ q "` cy=`" ++ str_float r
              ++ q "` r=`" ++ str_float (r - c1)
              ++ q "` style=`fill: none; stroke: " ++ stroke_color
              ++ q "; stroke-width: 1px; ` />")
    end.

Definition draw_second_circle (r : R) (stroke_color fill_color : string)
    (chart_type : ChartType) (c2 : option R) : result string :=
  if is_transit_or_synastry chart_type then
    Ok (q "<circle cx=`" ++ str_float r ++ q "` cy=`" ++ str_float r
          ++ q "` r=`" ++ str_float (r - 72)
          ++ q "` style=`fill: " ++ fill_color
          ++ "; fill-opacity:.4; stroke: " ++ stroke_color
          ++ q "; stroke-opacity:.4; stroke-width: 1px` />")
  else
    match c2 with
    | None => Raise (KerykeionException "c2 is None")
    | Some c2 =>
        Ok (q "<circle cx=`" ++ str_float r ++ q "` cy=`" ++ str_float r
              ++ q "` r=`" ++ str_float (r - c2)
              ++ q "` style=`fill: " ++ fill_color
              ++ "; fill-opacity:.2; stroke: " ++ stroke_color
              ++ q "; stroke-opacity:.4; stroke-width: 1px` />")
    end.

End RingPrinting.

(** * Views of the output used to state the properties *)

(** Concatenation of a list of fragments, in order. *)
Definition join (fragments : list string) : string :=
  fold_right append EmptyString fragments.

(** The angle both projections take the cosine and the sine of. *)
Definition radial_angle (slice offset : R) : R :=
  (slice * (PI / 6) + offset * (PI / 180))%R.

(** The offset of house [i] of a natal chart, from the cusp list. *)
Definition natal_house_offset (houses : list R) (i : nat) : R :=
  (IZR (trunc (nth 6 houses 0)) / -1 + IZR (trunc (nth i houses 0)))%R.

(** The offset of the label of house [i]: half way to the next cusp, the
    cusp after the twelfth being the first. *)
Definition natal_house_text_offset (houses : list R) (i : nat) : R :=
  (natal_house_offset houses i
   + IZR (trunc (degreeDiff (nth (S i mod 12) houses 0) (nth i houses 0) / 2)))%R.

(** The cusp-line fragment and the label fragment of house [i] of a natal
    chart. *)
Definition natal_house_fragments (str_float : R -> string) (r : R)
    (houses : list R)
    (standard_house_color first_house_color tenth_house_color
     seventh_house_color fourth_house_color : string)
    (c1 c3 : R) (i : nat) : string * string :=
  let offset := natal_house_offset houses i in
  let text_offset := natal_house_text_offset houses i in
  (house_cusp_fragment str_float
     (sliceToX 0 (r - c3) offset + c3) (sliceToY 0 (r - c3) offset + c3)
     (sliceToX 0 (r - c1) offset + c1) (sliceToY 0 (r - c1) offset + c1)
     (match i with
      | 0%nat => first_house_color
      | 3%nat => fourth_house_color
      | 6%nat => seventh_house_color
      | 9%nat => tenth_house_color
      | _ => standard_house_color
      end),
   house_number_fragment str_float "#f00; fill-opacity: .6"
     (sliceToX 0 (r - 48) text_offset + 48)
     (sliceToY 0 (r - 48) text_offset + 48) i)%R.

(** The cells of the grid: the cell of a planet (a box and the planet's
    glyph), the box where two planets meet, and the glyph of an aspect that
    joins them. *)
Inductive grid_cell : Type :=
| PlanetCell (xindent yindent : Z) (a : Planet)
| PairCell (xorb yorb : Z)
| GlyphCell (xorb yorb : Z) (aspect : Aspect).

Definition render_cell (style : string) (cell : grid_cell) : string :=
  match cell with
  | PlanetCell xindent yindent a =>
      aspect_grid_rect style xindent yindent 14
        ++ aspect_grid_planet_use xindent yindent a
  | PairCell xorb yorb => aspect_grid_rect style xorb yorb 14
  | GlyphCell xorb yorb aspect => aspect_grid_orb_use xorb yorb 14 aspect
  end.

(** The cells of the row of planet [a]: one box per later planet [b], each
    followed by the glyphs of the aspects that join [a] and [b]. *)
Fixpoint pair_cells (a : Planet) (bs : list Planet) (aspects : list Aspect)
    (xorb yorb : Z) : list grid_cell :=
  match bs with
  | [] => []
  | b :: bs' =>
      PairCell xorb yorb
        :: map (GlyphCell (xorb + 14) yorb)
               (filter (fun aspect => aspect_joins aspect a b) aspects)
        ++ pair_cells a bs' aspects (xorb + 14) yorb
  end.

(** The cells of the grid whose rows are the planets [rows], from the top. *)
Fixpoint grid_cells (rows : list Planet) (aspects : list Aspect)
    (xindent yindent : Z) : list grid_cell :=
  match rows with
  | [] => []
  | a :: rest =>
      PlanetCell xindent yindent a
        :: pair_cells a rest aspects (xindent + 14) (yindent - 14 + 14)
        ++ grid_cells rest aspects (xindent + 14) (yindent - 14)
  end.

(** The planets that own a cell, in the order of their cells. *)
Definition cell_planets (cells : list grid_cell) : list Planet :=
  flat_map (fun cell => match cell with
                        | PlanetCell _ _ a => [a]
                        | _ => []
                        end) cells.

(** The aspect glyphs, in the order of their cells. *)
Definition cell_glyphs (cells : list grid_cell) : list Aspect :=
  flat_map (fun cell => match cell with
                        | GlyphCell _ _ aspect => [aspect]
                        | _ => []
                        end) cells.

Definition aspect_grid_style (stroke_color : string) : string :=
  "stroke:" ++ stroke_color
    ++ "; stroke-width: 1px; stroke-opacity:.6; fill:none".

Arguments aspect_grid_rect : simpl never.
Arguments aspect_grid_planet_use : simpl never.
Arguments aspect_grid_orb_use : simpl never.

(** The degree, minute and second fields the coordinate converters print. *)
Definition coordinate_fields (coord : Q) : Z * Z * Z :=
  let coord := if Qlt_le_dec coord 0 then Qabs coord else coord in
  let deg := py_int coord in
  let min := py_int ((coord - inject_Z deg) * 60)%Q in
  let sec :=
    py_round ((((coord - inject_Z deg) * 60) - inject_Z min) * 60)%Q in
  (deg, min, sec).

(** The text of the three fields and a hemisphere label. *)
Definition coordinate_text (fields : Z * Z * Z) (sign : string) : string :=
  let '(deg, min, sec) := fields in
  str_int deg ++ "°" ++ str_int min ++ "'" ++ str_int sec ++ dquote
    ++ " " ++ sign.

(** The percentage printed for an element with [points] out of [total]. *)
Definition element_percentage (points total : Q) : Z :=
  py_round (100 * points / total)%Q.

(** The markup of the summary for four labels and four percentages. *)
Definition elements_markup (fire_label : string) (fire_percentage : Z)
    (earth_label : string) (earth_percentage : Z)
    (air_label : string) (air_percentage : Z)
    (water_label : string) (water_percentage : Z) : string :=
  ((((q "<g transform=`translate(-30,79)`>"
    ++ q "<text y=`0` style=`fill:#ff6600; font-size: 10px;`>"
    ++ fire_label ++ "  " ++ str_int fire_percentage ++ "%</text>")
    ++ q "<text y=`12` style=`fill:#6a2d04; font-size: 10px;`>"
    ++ earth_label ++ " " ++ str_int earth_percentage ++ "%</text>")
    ++ q "<text y=`24` style=`fill:#6f76d1; font-size: 10px;`>"
    ++ air_label ++ "   " ++ str_int air_percentage ++ "%</text>")
    ++ q "<text y=`36` style=`fill:#630e73; font-size: 10px;`>"
    ++ water_label ++ " " ++ str_int water_percentage ++ "%</text>")
    ++ "</g>".

(** The markup of a cusp line of the first subject, from [(x1, y1)] to
    [(x2, y2)], in the colour [linecolor]. *)
Definition cusp_line_markup (str_float : R -> string) (x1 y1 x2 y2 : R)
    (linecolor : string) : string :=
  q "<g kr:node=`Cusp`><line x1=`" ++ str_float x1
    ++ q "` y1=`" ++ str_float y1
    ++ q "` x2=`" ++ str_float x2
    ++ q "` y2=`" ++ str_float y2
    ++ q "` style=`stroke: " ++ linecolor
    ++ q "; stroke-width: 1px; stroke-dasharray:3,2; stroke-opacity:.4;`/></g>".

(** The markup of the label of house number [n] of the first subject, at
    [(x, y)]. *)
Definition house_label_markup (str_float : R -> string) (x y : R) (n : nat)
    : string :=
  q "<g kr:node=`HouseNumber`><text style=`fill: #f00; fill-opacity: .6; font-size: 14px`><tspan x=`"
    ++ str_float x ++ q "` y=`" ++ str_float y ++ q "`>"
    ++ str_int (Z.of_nat n) ++ "</tspan></text></g>".

(** The markup of the label of house number [n] of the second subject, at
    [(x, y)], with the fill opacity [opacity]. *)
Definition overlay_label_markup (str_float : R -> string) (opacity : string)
    (x y : R) (n : nat) : string :=
  q "<g kr:node=`HouseNumber`><text style=`fill: #00f; fill-opacity: "
    ++ opacity ++ q "; font-size: 14px`><tspan x=`"
    ++ str_float x ++ q "` y=`" ++ str_float y ++ q "`>"
    ++ str_int (Z.of_nat n) ++ "</tspan></text></g>".

(** The markup of a cusp line of the second subject, with the stroke opacity
    [opacity]. *)
Definition overlay_cusp_markup (str_float : R -> string) (x1 y1 x2 y2 : R)
    (linecolor opacity : string) : string :=
  q "<g kr:node=`Cusp`>" ++ "<line x1='" ++ str_float x1
    ++ "' y1='" ++ str_float y1
    ++ "' x2='" ++ str_float x2
    ++ "' y2='" ++ str_float y2
    ++ "' style='stroke: " ++ linecolor
    ++ "; stroke-width: 1px; stroke-opacity:" ++ opacity ++ ";'/></g>".

(** The label and the cusp line of house [i] of the second subject, which
    Transit and Synastry charts draw before those of the first subject. *)
Definition overlay_house_fragments (str_float : R -> string) (r : R)
    (first second : list R) (standard_house_color linecolor : string)
    (chart_type : ChartType) (i : nat) : string :=
  let zeropoint := (360 - nth 6 first 0)%R in
  let t_offset := (zeropoint + nth i second 0)%R in
  let t_offset :=
    if Rgt_dec t_offset 360 then (t_offset - 360)%R else t_offset in
  let t_text_offset :=
    (t_offset
     + IZR (trunc (degreeDiff (nth (S i mod 12) second 0) (nth i second 0)
                   / 2)))%R in
  let t_linecolor :=
    if ((i =? 0) || (i =? 9) || (i =? 6) || (i =? 3))%nat then linecolor
    else standard_house_color in
  overlay_label_markup str_float
    (match chart_type with
     | Transit => "0"
     | _ => ".4"
     end)
    (sliceToX 0 (r - 8) t_text_offset + 8 - 3)%R
    (sliceToY 0 (r - 8) t_text_offset + 8 + 3)%R (i + 1)
  ++ overlay_cusp_markup str_float
       (sliceToX 0 (r - 36) t_offset + 36)%R
       (sliceToY 0 (r - 36) t_offset + 36)%R
       (sliceToX 0 r t_offset) (sliceToY 0 r t_offset) t_linecolor
       (match chart_type with
        | Transit => "0"
        | _ => ".3"
        end).

(** Everything the loop appends for house [i], for any chart type. *)
Definition house_fragments (str_float : R -> string) (r : R)
    (first : list R)
    (standard_house_color first_house_color tenth_house_color
     seventh_house_color fourth_house_color : string)
    (c1 c3 : R) (chart_type : ChartType) (second : option (list R))
    (i : nat) : string :=
  let overlay := is_transit_or_synastry chart_type in
  let dropin := if overlay then 160%R else c3 in
  let roff := if overlay then 72%R else c1 in
  let offset := natal_house_offset first i in
  let text_offset := natal_house_text_offset first i in
  let linecolor :=
    match i with
    | 0%nat => first_house_color
    | 3%nat => fourth_house_color
    | 6%nat => seventh_house_color
    | 9%nat => tenth_house_color
    | _ => standard_house_color
    end in
  let label_dropin :=
    match chart_type with
    | Transit | Synastry => 84%R
    | ExternalNatal => 100%R
    | Natal => 48%R
    end in
  (if overlay
   then overlay_house_fragments str_float r first
          (match second with Some houses => houses | None => [] end)
          standard_house_color linecolor chart_type i
   else EmptyString)
  ++ cusp_line_markup str_float
       (sliceToX 0 (r - dropin) offset + dropin)%R
       (sliceToY 0 (r - dropin) offset + dropin)%R
       (sliceToX 0 (r - roff) offset + roff)%R
       (sliceToY 0 (r - roff) offset + roff)%R linecolor
  ++ house_label_markup str_float
       (sliceToX 0 (r - label_dropin) text_offset + label_dropin - 3)%R
       (sliceToY 0 (r - label_dropin) text_offset + label_dropin + 3)%R
       (i + 1).

(** All the cusps that turn [i] of the loop reads are there. *)
Definition house_step_in_range (first : list R) (chart_type : ChartType)
    (second : option (list R)) (i : nat) : Prop :=
  let len1 := List.length first in
  let len2 :=
    match second with Some houses => List.length houses | None => 0%nat end in
  (6 < len1 /\ i < len1 /\ (i < 11 -> i + 1 < len1) /\ (11 <= i -> 11 < len1)
   /\ (is_transit_or_synastry chart_type = true ->
       i < len2 /\ (i < 11 -> i + 1 < len2) /\ (11 <= i -> 11 < len2)))%nat.

(** The number of boxes where two planets meet. *)
Definition count_pair_cells (cells : list grid_cell) : nat :=
  List.length (filter (fun cell => match cell with
                                   | PairCell _ _ => true
                                   | _ => false
                                   end) cells).

(** The same aspect with its two planets exchanged. *)
Definition swap_aspect (aspect : Aspect) : Aspect :=
  {| p1 := p2 aspect; p1_name := p2_name aspect;
     p1_abs_pos := p2_abs_pos aspect;
     p2 := p1 aspect; p2_name := p1_name aspect;
     p2_abs_pos := p1_abs_pos aspect;
     aspect_degrees := aspect_degrees aspect |}.




(** The cusp line of house [i] of a natal chart: from the radius [r - c3] to
    the radius [r - c1], at the offset of the house, in the colour that
    belongs to the house. *)
Definition natal_cusp_line (str_float : R -> string) (r : R)
    (houses : list R)
    (standard_house_color first_house_color tenth_house_color
     seventh_house_color fourth_house_color : string)
    (c1 c3 : R) (i : nat) : string :=
  let offset := natal_house_offset houses i in
  cusp_line_markup str_float
    (sliceToX 0 (r - c3) offset + c3)%R (sliceToY 0 (r - c3) offset + c3)%R
    (sliceToX 0 (r - c1) offset + c1)%R (sliceToY 0 (r - c1) offset + c1)%R
    (match i with
     | 0%nat => first_house_color
     | 3%nat => fourth_house_color
     | 6%nat => seventh_house_color
     | 9%nat => tenth_house_color
     | _ => standard_house_color
     end).

(** The label of house [i] of a natal chart: the number [i + 1], on the
    radius [r - 48] half way to the next cusp. *)
Definition natal_house_label (str_float : R -> string) (r : R)
    (houses : list R) (i : nat) : string :=
  let text_offset := natal_house_text_offset houses i in
  house_label_markup str_float
    (sliceToX 0 (r - 48) text_offset + 48 - 3)%R
    (sliceToY 0 (r - 48) text_offset + 48 + 3)%R (i + 1).

(** ** Sample inputs *)

(** Two aspects that differ only in the fractions of their positions. *)
Definition sample_aspect : Aspect :=
  {| p1 := 0; p1_name := "Sun"; p1_abs_pos := (403 / 4)%R;
     p2 := 2; p2_name := "Mars"; p2_abs_pos := (401 / 2)%R;
     aspect_degrees := 90 |}.

Definition sample_aspect' : Aspect :=
  {| p1 := 0; p1_name := "Sun"; p1_abs_pos := (401 / 4)%R;
     p2 := 2; p2_name := "Mars"; p2_abs_pos := (1601 / 8)%R;
     aspect_degrees := 90 |}.

(** Twelve cusps. *)
Definition sample_houses : list R :=
  [15; 40; 70; 105; 140; 170; 195; 220; 250; 285; 320; 350]%R.

(** An active, an inactive and an active planet. *)
Definition sample_planets : list Planet :=
  [ {| planet_id := 0; planet_name := "Sun"; is_active := true |};
    {| planet_id := 1; planet_name := "Moon"; is_active := false |};
    {| planet_id := 2; planet_name := "Mars"; is_active := true |} ].

(** One inactive planet. *)
Definition sample_inactive_planets : list Planet :=
  [ {| planet_id := 1; planet_name := "Moon"; is_active := false |} ].

(** An aspect between the active Sun and the inactive Moon of
    [sample_planets]. *)
Definition sample_aspect_to_inactive : Aspect :=
  {| p1 := 0; p1_name := "Sun"; p1_abs_pos := 10%R;
     p2 := 1; p2_name := "Moon"; p2_abs_pos := 20%R;
     aspect_degrees := 60 |}.

(** * Properties *)

(** ** The embedding on the examples of the source *)

Example fmt_02d_pads :
  fmt_02d 5 = "05" /\ fmt_02d 0 = "00" /\ fmt_02d 123 = "123"
  /\ fmt_02d (-5) = "-5".
Proof. repeat split. Qed.

Example py_round_ties_to_even :
  py_round (5 # 2) = 2%Z /\ py_round (7 # 2) = 4%Z
  /\ py_round (-5 # 2) = (-2)%Z /\ py_int (-7 # 2) = (-3)%Z.
Proof. repeat split. Qed.

Example str_times_2_5_prints :
  str_times_2_5 382 = "955.0" /\ str_times_2_5 469 = "1172.5"
  /\ str_times_2_5 (-1) = "-2.5" /\ str_times_2_5 0 = "0.0".
Proof. repeat split. Qed.

Example latitude_selects_label :
  convert_latitude_coordinate_to_string (-105 # 10) "N" "S"
  = "10°30'0" ++ dquote ++ " S"
  /\ convert_latitude_coordinate_to_string (105 # 10) "N" "S"
     = "10°30'0" ++ dquote ++ " N".
Proof. split; reflexivity. Qed.

(** ** Helper lemmas on strings and loops *)

Lemma append_empty_r (s : string) : s ++ EmptyString = s.
Proof. induction s as [|c s IH]; simpl; [reflexivity | now rewrite IH]. Qed.

Lemma append_assoc (s t u : string) : (s ++ t) ++ u = s ++ t ++ u.
Proof. induction s as [|c s IH]; simpl; [reflexivity | now rewrite IH]. Qed.

(** A loop that only appends builds the concatenation of what it appends. *)
Lemma fold_left_append {A : Type} (f : A -> string) (xs : list A) (out : string) :
  fold_left (fun out x => out ++ f x) xs out = out ++ join (map f xs).
Proof.
  revert out; induction xs as [|x xs IH]; intros out; simpl.
  - now rewrite append_empty_r.
  - now rewrite IH, append_assoc.
Qed.

(** ** CoordinateProjector *)

Section Projection.

Open Scope R_scope.

Lemma sliceToX_radial (slice radius offset : R) :
  sliceToX slice radius offset = radius * (cos (radial_angle slice offset) + 1).
Proof.
  unfold sliceToX, radial_angle. do 3 f_equal. field.
Qed.

Lemma sliceToY_radial (slice r offset : R) :
  sliceToY slice r offset = r * (1 - sin (radial_angle slice offset)).
Proof.
  unfold sliceToY, radial_angle.
  replace (PI / 6 * slice + PI * offset / 180)
    with (slice * (PI / 6) + offset * (PI / 180)) by field.
  field.
Qed.

(** C1: for all real slice, radius and offset, sliceToX is
    radius * (cos(slice*pi/6 + offset*pi/180) + 1) and sliceToY is
    radius * (1 - sin(slice*pi/6 + offset*pi/180)); at slice 0 and offset 0
    they are 2r and r. *)
Theorem sliceTo_formula :
  (forall slice radius offset : R,
      sliceToX slice radius offset
      = radius * (cos (slice * (PI / 6) + offset * (PI / 180)) + 1)
      /\ sliceToY slice radius offset
         = radius * (1 - sin (slice * (PI / 6) + offset * (PI / 180))))
  /\ (forall r : R, sliceToX 0 r 0 = 2 * r /\ sliceToY 0 r 0 = r).
Proof.
  split.
  - intros slice radius offset. split.
    + apply sliceToX_radial.
    + apply sliceToY_radial.
  - intros r. rewrite sliceToX_radial, sliceToY_radial. unfold radial_angle.
    replace (0 * (PI / 6) + 0 * (PI / 180)) with 0 by ring.
    rewrite cos_0, sin_0. split; ring.
Qed.

(** *** degreeDiff *)

Lemma degreeDiff_gt (a b : R) :
  a > b ->
  degreeDiff a b = if Rgt_dec (a - b) 180 then 360 - (a - b) else a - b.
Proof.
  intros H. unfold degreeDiff.
  destruct (Rgt_dec a b) as [_|n]; [|contradiction].
  destruct (Rlt_dec a b) as [l|_]; [lra|]. reflexivity.
Qed.

Lemma degreeDiff_lt (a b : R) :
  a < b ->
  degreeDiff a b = if Rgt_dec (b - a) 180 then 360 - (b - a) else b - a.
Proof.
  intros H. unfold degreeDiff.
  destruct (Rgt_dec a b) as [g|_]; [lra|].
  destruct (Rlt_dec a b) as [_|n]; [|contradiction]. reflexivity.
Qed.

Lemma degreeDiff_eq (a : R) : degreeDiff a a = 0.
Proof.
  unfold degreeDiff.
  destruct (Rgt_dec a a) as [g|_]; [lra|].
  destruct (Rlt_dec a a) as [l|_]; [lra|].
  destruct (Rgt_dec 0 180) as [g|_]; [lra|]. reflexivity.
Qed.

Lemma degreeDiff_sym (a b : R) : degreeDiff a b = degreeDiff b a.
Proof.
  destruct (Rtotal_order a b) as [H | [H | H]].
  - rewrite (degreeDiff_lt H), (@degreeDiff_gt b a) by lra. reflexivity.
  - subst b. reflexivity.
  - rewrite (degreeDiff_gt H), (@degreeDiff_lt b a) by lra. reflexivity.
Qed.

Lemma degreeDiff_range (a b : R) :
  Rabs (a - b) <= 360 -> 0 <= degreeDiff a b <= 180.
Proof.
  intros H.
  assert (H' : -360 <= a - b <= 360)
    by (unfold Rabs in H; destruct (Rcase_abs (a - b)); lra).
  destruct (Rtotal_order a b) as [Hlt | [Heq | Hgt]].
  - rewrite (degreeDiff_lt Hlt). destruct (Rgt_dec (b - a) 180); lra.
  - subst b. rewrite degreeDiff_eq. lra.
  - rewrite (degreeDiff_gt Hgt). destruct (Rgt_dec (a - b) 180); lra.
Qed.

(** C2: degreeDiff is symmetric, and for two degrees of the wheel, each
    between 0 and 360, its result lies between 0 and 180. *)
Theorem degreeDiff_symmetric_folded (a b : R) :
  degreeDiff a b = degreeDiff b a
  /\ (0 <= a <= 360 -> 0 <= b <= 360 -> 0 <= degreeDiff a b <= 180).
Proof.
  split; [apply degreeDiff_sym|].
  intros Ha Hb. apply degreeDiff_range.
  unfold Rabs. destruct (Rcase_abs (a - b)); lra.
Qed.

Lemma degreeDiff_symmetric_folded_witness :
  (0 <= 10 <= 360 /\ 0 <= 350 <= 360)
  /\ degreeDiff 10 350 = degreeDiff 350 10
  /\ 0 <= degreeDiff 10 350 <= 180.
Proof.
  assert (Ha : 0 <= 10 <= 360) by lra.
  assert (Hb : 0 <= 350 <= 360) by lra.
  split; [exact (conj Ha Hb)|].
  split.
  - exact (proj1 (degreeDiff_symmetric_folded 10 350)).
  - exact (proj2 (degreeDiff_symmetric_folded 10 350) Ha Hb).
Defined.

End Projection.

(** ** RingRenderer: the degree ticks *)

Section DegreeTicks.

Open Scope R_scope.

Variable str_float : R -> string.





End DegreeTicks.


(** ** AspectRenderer: the aspect line *)

Section AspectLine.

Open Scope R_scope.

Variable str_float : R -> string.

Lemma trunc_between (z : Z) (x : R) :
  (0 <= z)%Z -> IZR z <= x < IZR z + 1 -> trunc x = z.
Proof.
  intros Hz Hx. pose proof (IZR_le _ _ Hz) as Hz'. unfold trunc.
  destruct (Rle_dec 0 x) as [_|n]; [|lra].
  symmetry. apply Int_part_spec. lra.
Qed.

(** C9: the endpoints of the aspect line, and so the line element, are the
    same for any two calls with the same r and ar whose seventh-house degree
    and two positions have the same truncations; the positions themselves are
    printed only in the kr: attributes of the group tag. *)
Theorem aspect_line_geometry_truncated
    (r ar : R) (color : string) (a a' : Aspect) (seventh seventh' : R) :
  trunc seventh = trunc seventh' ->
  trunc (p1_abs_pos a) = trunc (p1_abs_pos a') ->
  trunc (p2_abs_pos a) = trunc (p2_abs_pos a') ->
  aspect_line_endpoints r ar a seventh = aspect_line_endpoints r ar a' seventh'
  /\ aspect_line_element str_float (aspect_line_endpoints r ar a seventh) color
     = aspect_line_element str_float
         (aspect_line_endpoints r ar a' seventh') color
  /\ draw_aspect_line str_float r ar a color seventh
     = aspect_line_group str_float a
         ++ aspect_line_element str_float
              (aspect_line_endpoints r ar a seventh) color
         ++ "</g>".
Proof.
  intros Hs H1 H2.
  assert (E : aspect_line_endpoints r ar a seventh
              = aspect_line_endpoints r ar a' seventh').
  { unfold aspect_line_endpoints. now rewrite Hs, H1, H2. }
  split; [exact E|]. split.
  - now rewrite E.
  - unfold draw_aspect_line. cbv zeta. simpl append at 3.
    now rewrite append_assoc.
Qed.

End AspectLine.

Lemma aspect_line_geometry_truncated_witness :
  (trunc (21 / 2) = trunc (41 / 4)
   /\ trunc (p1_abs_pos sample_aspect) = trunc (p1_abs_pos sample_aspect')
   /\ trunc (p2_abs_pos sample_aspect) = trunc (p2_abs_pos sample_aspect'))
  /\ aspect_line_endpoints 100 50 sample_aspect (21 / 2)
     = aspect_line_endpoints 100 50 sample_aspect' (41 / 4).
Proof.
  assert (Hs : trunc (21 / 2) = trunc (41 / 4)).
  { rewrite (@trunc_between 10 (21 / 2)), (@trunc_between 10 (41 / 4));
      [reflexivity | lia | lra | lia | lra]. }
  assert (H1 : trunc (p1_abs_pos sample_aspect)
               = trunc (p1_abs_pos sample_aspect')).
  { simpl. rewrite (@trunc_between 100 (403 / 4)), (@trunc_between 100 (401 / 4));
      [reflexivity | lia | lra | lia | lra]. }
  assert (H2 : trunc (p2_abs_pos sample_aspect)
               = trunc (p2_abs_pos sample_aspect')).
  { simpl. rewrite (@trunc_between 200 (401 / 2)), (@trunc_between 200 (1601 / 8));
      [reflexivity | lia | lra | lia | lra]. }
  split; [exact (conj Hs (conj H1 H2))|].
  exact (proj1 (@aspect_line_geometry_truncated (fun _ => "#")
                  100 50 EmptyString sample_aspect sample_aspect'
                  (21 / 2) (41 / 4) Hs H1 H2)).
Defined.

(** ** SummaryRenderer *)

Section Summary.

Open Scope Q_scope.

Lemma true_div_zero (a b : Q) : b == 0 -> true_div a b = Raise ZeroDivisionError.
Proof.
  intros H. unfold true_div.
  now rewrite (proj2 (Qeq_bool_iff b 0) H).
Qed.

(** C3, as the code has it: totals (1,1,1,1) render 25% after each of the four
    labels; when the four totals sum to zero, as (0,0,0,0) do, the division
    fault is raised and no markup is produced. *)
Theorem draw_elements_percentages_shares :
  (forall fire_label earth_label air_label water_label : string,
      draw_elements_percentages fire_label 1 earth_label 1
                                air_label 1 water_label 1
      = Ok (((((q "<g transform=`translate(-30,79)`>"
           ++ q "<text y=`0` style=`fill:#ff6600; font-size: 10px;`>"
           ++ fire_label ++ "  " ++ "25" ++ "%</text>")
           ++ q "<text y=`12` style=`fill:#6a2d04; font-size: 10px;`>"
           ++ earth_label ++ " " ++ "25" ++ "%</text>")
           ++ q "<text y=`24` style=`fill:#6f76d1; font-size: 10px;`>"
           ++ air_label ++ "   " ++ "25" ++ "%</text>")
           ++ q "<text y=`36` style=`fill:#630e73; font-size: 10px;`>"
           ++ water_label ++ " " ++ "25" ++ "%</text>")
           ++ "</g>"))
  /\ (forall (fire_label earth_label air_label water_label : string)
             (fire_points earth_points air_points water_points : Q),
         fire_points + earth_points + air_points + water_points == 0 ->
         draw_elements_percentages fire_label fire_points
                                   earth_label earth_points
                                   air_label air_points
                                   water_label water_points
         = Raise ZeroDivisionError).
Proof.
  split.
  - intros. reflexivity.
  - intros fl el al wl fp ep ap wp H.
    unfold draw_elements_percentages. cbv zeta.
    now rewrite (true_div_zero (100 * fp) H).
Qed.

Lemma draw_elements_percentages_shares_witness :
  0 + 0 + 0 + 0 == 0
  /\ draw_elements_percentages "Fire" 0 "Earth" 0 "Air" 0 "Water" 0
     = Raise ZeroDivisionError.
Proof.
  assert (H : 0 + 0 + 0 + 0 == 0) by reflexivity.
  split; [exact H|].
  exact (proj2 draw_elements_percentages_shares
           "Fire" "Earth" "Air" "Water" 0 0 0 0 H).
Defined.

(** C3 as stated fails: with totals (0,0,0,0) the call raises the division
    fault; it returns no markup, so no 0% text either. *)
Lemma draw_elements_percentages_zero_counterexample :
  draw_elements_percentages "Fire" 0 "Earth" 0 "Air" 0 "Water" 0
  = Raise ZeroDivisionError
  /\ ~ (exists out : string,
           draw_elements_percentages "Fire" 0 "Earth" 0 "Air" 0 "Water" 0
           = Ok out).
Proof.
  split; [reflexivity|].
  intros [out H]. vm_compute in H. discriminate H.
Qed.

End Summary.

(** ** DegreeFormatter *)

Section Formatter.

Open Scope Q_scope.

(** C10: some coordinate is rendered with a seconds field of 60 and no carry
    into the minutes, by the latitude and by the longitude converter. *)
Theorem coordinate_seconds_reach_60 :
  exists coord : Q,
    (forall north_label south_label : string,
        convert_latitude_coordinate_to_string coord north_label south_label
        = "0°0'60" ++ dquote ++ " " ++ north_label)
    /\ (forall east_label west_label : string,
           convert_longitude_coordinate_to_string coord east_label west_label
           = "0°0'60" ++ dquote ++ " " ++ east_label).
Proof.
  exists (1666 # 100000). split; intros; reflexivity.
Qed.

End Formatter.

(** ** HouseRenderer *)

Section HousesProperties.

Variable str_float : R -> string.

Lemma getitem_nth {A : Type} (xs : list A) (i : nat) (d : A) :
  (i < List.length xs)%nat -> getitem xs i = Ok (nth i xs d).
Proof.
  intros H. unfold getitem.
  now rewrite (nth_error_nth' xs d H).
Qed.

Lemma for_each_append {A : Type} (body : string -> A -> result string)
    (f : A -> string) (xs : list A) :
  (forall x path, In x xs -> body path x = Ok (path ++ f x)) ->
  forall path, for_each xs path body = Ok (path ++ join (map f xs)).
Proof.
  induction xs as [|x xs IH]; intros Hbody path; simpl.
  - now rewrite append_empty_r.
  - rewrite Hbody by now left. simpl.
    rewrite IH by (intros; apply Hbody; now right).
    now rewrite append_assoc.
Qed.

Lemma house_linecolor_cases (i : nat) (standard first tenth seventh fourth : string) :
  house_linecolor i standard first tenth seventh fourth
  = match i with
    | 0%nat => first
    | 3%nat => fourth
    | 6%nat => seventh
    | 9%nat => tenth
    | _ => standard
    end.
Proof.
  do 10 (destruct i as [|i]; [reflexivity|]). reflexivity.
Qed.

Section Natal.

Variables (r c1 c3 : R) (houses : list R).
Variables (standard first tenth seventh fourth : string).
Variable second : option (list R).
Hypothesis twelve : List.length houses = 12%nat.

Lemma house_step_natal (path : string) (i : nat) :
  (i < 12)%nat ->
  house_step str_float r houses standard first tenth seventh fourth
             c1 c3 Natal second path i
  = Ok (path
          ++ fst (natal_house_fragments str_float r houses standard first
                    tenth seventh fourth c1 c3 i)
          ++ snd (natal_house_fragments str_float r houses standard first
                    tenth seventh fourth c1 c3 i)).
Proof.
  intros Hi. unfold house_step. cbv zeta. simpl is_transit_or_synastry.
  cbv iota.
  change (12 / 2)%nat with 6%nat. change (12 - 1)%nat with 11%nat.
  rewrite (@getitem_nth R houses 6 0%R) by lia.
  rewrite (@getitem_nth R houses i 0%R) by lia.
  cbn [bind].
  unfold natal_house_fragments, natal_house_text_offset. cbv zeta.
  cbn [fst snd]. fold (natal_house_offset houses i).
  rewrite house_linecolor_cases.
  destruct (Nat.ltb_spec i 11) as [Hlt | Hge].
  - rewrite (@getitem_nth R houses (i + 1) 0%R) by lia.
    cbn [bind]. rewrite Nat.mod_small by lia.
    rewrite Nat.add_1_r. now rewrite append_assoc.
  - assert (i = 11)%nat by lia. subst i.
    rewrite (@getitem_nth R houses 0 0%R) by lia.
    rewrite (@getitem_nth R houses 11 0%R) by lia.
    cbn [bind]. change (12 mod 12)%nat with 0%nat.
    now rewrite append_assoc.
Qed.

Lemma natal_house_fragments_markup (i : nat) :
  fst (natal_house_fragments str_float r houses standard first tenth seventh
         fourth c1 c3 i)
  ++ snd (natal_house_fragments str_float r houses standard first tenth
            seventh fourth c1 c3 i)
  = natal_cusp_line str_float r houses standard first tenth seventh fourth
      c1 c3 i
    ++ natal_house_label str_float r houses i.
Proof.
  unfold natal_house_fragments, natal_cusp_line, natal_house_label,
    house_cusp_fragment, house_number_fragment, cusp_line_markup,
    house_label_markup.
  cbv zeta. cbn [fst snd]. rewrite !append_assoc. reflexivity.
Qed.

(** C7: for a natal chart with twelve cusps the output is the concatenation,
    for the houses 0 to 11 in order, of one cusp line and one house-number
    label: twelve cusp lines and twelve labels; the cusp lines of houses 0,
    3, 6 and 9 have the first, fourth, seventh and tenth house colours and
    the others the standard colour. *)
Theorem natal_houses_twelve_cusps_and_numbers :
  let cusp :=
    natal_cusp_line str_float r houses standard first tenth seventh fourth
      c1 c3 in
  let label := natal_house_label str_float r houses in
  draw_houses_cusps_and_text_number str_float r houses standard first tenth
    seventh fourth c1 c3 Natal second
  = Ok (join (map (fun i => cusp i ++ label i) (seq 0 12)))
  /\ List.length (map cusp (seq 0 12)) = 12%nat
  /\ List.length (map label (seq 0 12)) = 12%nat.
Proof.
  cbv zeta. split; [|split].
  - unfold draw_houses_cusps_and_text_number.
    simpl is_transit_or_synastry. cbv iota zeta.
    rewrite (@for_each_append nat _
               (fun i =>
                  natal_cusp_line str_float r houses standard first tenth
                    seventh fourth c1 c3 i
                  ++ natal_house_label str_float r houses i)).
    + reflexivity.
    + intros i path Hin. apply in_seq in Hin.
      rewrite house_step_natal by lia.
      now rewrite natal_house_fragments_markup.
  - now rewrite length_map, length_seq.
  - now rewrite length_map, length_seq.
Qed.

End Natal.

End HousesProperties.

Lemma natal_houses_twelve_cusps_and_numbers_witness :
  List.length sample_houses = 12%nat
  /\ draw_houses_cusps_and_text_number (fun _ => "#") 200
       sample_houses "std" "first" "tenth" "seventh" "fourth" 10 20 Natal None
     = Ok (q ("<g kr:node=`Cusp`><line x1=`#` y1=`#` x2=`#` y2=`#` style=`stroke: first; stroke-width: 1px; stroke-dasharray:3,2; stroke-opacity:.4;`/></g>"
      ++ "<g kr:node=`HouseNumber`><text style=`fill: #f00; fill-opacity: .6; font-size: 14px`><tspan x=`#` y=`#`>1</tspan></text></g>"
      ++ "<g kr:node=`Cusp`><line x1=`#` y1=`#` x2=`#` y2=`#` style=`stroke: std; stroke-width: 1px; stroke-dasharray:3,2; stroke-opacity:.4;`/></g>"
      ++ "<g kr:node=`HouseNumber`><text style=`fill: #f00; fill-opacity: .6; font-size: 14px`><tspan x=`#` y=`#`>2</tspan></text></g>"
      ++ "<g kr:node=`Cusp`><line x1=`#` y1=`#` x2=`#` y2=`#` style=`stroke: std; stroke-width: 1px; stroke-dasharray:3,2; stroke-opacity:.4;`/></g>"
      ++ "<g kr:node=`HouseNumber`><text style=`fill: #f00; fill-opacity: .6; font-size: 14px`><tspan x=`#` y=`#`>3</tspan></text></g>"
      ++ "<g kr:node=`Cusp`><line x1=`#` y1=`#` x2=`#` y2=`#` style=`stroke: fourth; stroke-width: 1px; stroke-dasharray:3,2; stroke-opacity:.4;`/></g>"
      ++ "<g kr:node=`HouseNumber`><text style=`fill: #f00; fill-opacity: .6; font-size: 14px`><tspan x=`#` y=`#`>4</tspan></text></g>"
      ++ "<g kr:node=`Cusp`><line x1=`#` y1=`#` x2=`#` y2=`#` style=`stroke: std; stroke-width: 1px; stroke-dasharray:3,2; stroke-opacity:.4;`/></g>"
      ++ "<g kr:node=`HouseNumber`><text style=`fill: #f00; fill-opacity: .6; font-size: 14px`><tspan x=`#` y=`#`>5</tspan></text></g>"
      ++ "<g kr:node=`Cusp`><line x1=`#` y1=`#` x2=`#` y2=`#` style=`stroke: std; stroke-width: 1px; stroke-dasharray:3,2; stroke-opacity:.4;`/></g>"
      ++ "<g kr:node=`HouseNumber`><text style=`fill: #f00; fill-opacity: .6; font-size: 14px`><tspan x=`#` y=`#`>6</tspan></text></g>"
      ++ "<g kr:node=`Cusp`><line x1=`#` y1=`#` x2=`#` y2=`#` style=`stroke: seventh; stroke-width: 1px; stroke-dasharray:3,2; stroke-opacity:.4;`/></g>"
      ++ "<g kr:node=`HouseNumber`><text style=`fill: #f00; fill-opacity: .6; font-size: 14px`><tspan x=`#` y=`#`>7</tspan></text></g>"
      ++ "<g kr:node=`Cusp`><line x1=`#` y1=`#` x2=`#` y2=`#` style=`stroke: std; stroke-width: 1px; stroke-dasharray:3,2; stroke-opacity:.4;`/></g>"
      ++ "<g kr:node=`HouseNumber`><text style=`fill: #f00; fill-opacity: .6; font-size: 14px`><tspan x=`#` y=`#`>8</tspan></text></g>"
      ++ "<g kr:node=`Cusp`><line x1=`#` y1=`#` x2=`#` y2=`#` style=`stroke: std; stroke-width: 1px; stroke-dasharray:3,2; stroke-opacity:.4;`/></g>"
      ++ "<g kr:node=`HouseNumber`><text style=`fill: #f00; fill-opacity: .6; font-size: 14px`><tspan x=`#` y=`#`>9</tspan></text></g>"
      ++ "<g kr:node=`Cusp`><line x1=`#` y1=`#` x2=`#` y2=`#` style=`stroke: tenth; stroke-width: 1px; stroke-dasharray:3,2; stroke-opacity:.4;`/></g>"
      ++ "<g kr:node=`HouseNumber`><text style=`fill: #f00; fill-opacity: .6; font-size: 14px`><tspan x=`#` y=`#`>10</tspan></text></g>"
      ++ "<g kr:node=`Cusp`><line x1=`#` y1=`#` x2=`#` y2=`#` style=`stroke: std; stroke-width: 1px; stroke-dasharray:3,2; stroke-opacity:.4;`/></g>"
      ++ "<g kr:node=`HouseNumber`><text style=`fill: #f00; fill-opacity: .6; font-size: 14px`><tspan x=`#` y=`#`>11</tspan></text></g>"
      ++ "<g kr:node=`Cusp`><line x1=`#` y1=`#` x2=`#` y2=`#` style=`stroke: std; stroke-width: 1px; stroke-dasharray:3,2; stroke-opacity:.4;`/></g>"
      ++ "<g kr:node=`HouseNumber`><text style=`fill: #f00; fill-opacity: .6; font-size: 14px`><tspan x=`#` y=`#`>12</tspan></text></g>")).
Proof.
  assert (H : List.length sample_houses = 12%nat) by reflexivity.
  split; [exact H|].
  rewrite (proj1 (@natal_houses_twelve_cusps_and_numbers
                    (fun _ => "#") 200%R 10%R 20%R sample_houses
                    "std" "first" "tenth" "seventh" "fourth" None H)).
  reflexivity.
Defined.

(** ** AspectRenderer: the aspect grid *)

Section AspectGrid.

Open Scope Z_scope.

Lemma join_app (xs ys : list string) : join (xs ++ ys) = join xs ++ join ys.
Proof.
  induction xs as [|x xs IH]; simpl; [reflexivity|].
  now rewrite IH, append_assoc.
Qed.

Lemma active_loop (planets acc : list Planet) :
  fold_left
    (fun actual_planets planet =>
       if is_active planet then (actual_planets ++ [planet])%list
       else actual_planets) planets acc
  = (acc ++ filter is_active planets)%list.
Proof.
  revert acc; induction planets as [|p planets IH]; intros acc; simpl.
  - now rewrite app_nil_r.
  - rewrite IH. destruct (is_active p); [|reflexivity].
    now rewrite <- app_assoc.
Qed.

Variables (style : string) (aspects : list Aspect).

Lemma aspect_loop (a b : Planet) (xorb yorb : Z) (out : string) (l : list Aspect) :
  fold_left
    (fun out aspect =>
       if aspect_joins aspect a b
       then out ++ aspect_grid_orb_use xorb yorb 14 aspect
       else out) l out
  = out ++ join (map (render_cell style)
                     (map (GlyphCell xorb yorb)
                          (filter (fun aspect => aspect_joins aspect a b) l))).
Proof.
  revert out; induction l as [|x l IH]; intros out; simpl.
  - now rewrite append_empty_r.
  - rewrite IH. destruct (aspect_joins x a b); [|reflexivity].
    simpl. now rewrite append_assoc.
Qed.

Lemma pair_loop (a : Planet) (bs : list Planet) (yorb xorb : Z) (out : string) :
  fst (fold_left
         (fun '(out, xorb) b =>
            let out := out ++ aspect_grid_rect style xorb yorb 14 in
            let xorb := xorb + 14 in
            let out :=
              fold_left
                (fun out aspect =>
                   if aspect_joins aspect a b
                   then out ++ aspect_grid_orb_use xorb yorb 14 aspect
                   else out)
                aspects out in
            (out, xorb))
         bs (out, xorb))
  = out ++ join (map (render_cell style) (pair_cells a bs aspects xorb yorb)).
Proof.
  revert out xorb; induction bs as [|b bs IH]; intros out xorb; cbn.
  - now rewrite append_empty_r.
  - rewrite IH, aspect_loop, map_app, join_app.
    now rewrite !append_assoc.
Qed.

Lemma skipn_next {A : Type} (k : nat) (xs rest : list A) (a : A) :
  skipn k xs = a :: rest -> skipn (k + 1) xs = rest.
Proof.
  revert xs; induction k as [|k IH]; intros xs H; simpl in *.
  - now subst xs.
  - destruct xs as [|x xs]; [discriminate|]. now apply IH.
Qed.

Lemma row_loop (planets rows : list Planet) (k : nat)
    (out : string) (xindent yindent : Z) :
  skipn k planets = rows ->
  fst (fst
    (fold_left
      (fun '(out, xindent, yindent) '(index, a) =>
         let out := out ++ aspect_grid_rect style xindent yindent 14 in
         let out := out ++ aspect_grid_planet_use xindent yindent a in
         let xindent := xindent + 14 in
         let yindent := yindent - 14 in
         let xorb := xindent in
         let yorb := yindent + 14 in
         let second_iteration_revers_planets := skipn (index + 1) planets in
         let '(out, _) :=
           fold_left
             (fun '(out, xorb) b =>
                let out := out ++ aspect_grid_rect style xorb yorb 14 in
                let xorb := xorb + 14 in
                let out :=
                  fold_left
                    (fun out aspect =>
                       if aspect_joins aspect a b
                       then out ++ aspect_grid_orb_use xorb yorb 14 aspect
                       else out)
                    aspects out in
                (out, xorb))
             second_iteration_revers_planets (out, xorb) in
         (out, xindent, yindent))
      (combine (seq k (List.length rows)) rows)
      (out, xindent, yindent)))
  = out ++ join (map (render_cell style)
                     (grid_cells rows aspects xindent yindent)).
Proof.
  revert k out xindent yindent.
  induction rows as [|a rest IH]; intros k out xindent yindent Hk; cbn.
  - now rewrite append_empty_r.
  - cbv zeta. rewrite (skipn_next _ _ Hk).
    pose proof (pair_loop a rest (yindent - 14 + 14) (xindent + 14)
                  ((out ++ aspect_grid_rect style xindent yindent 14)
                     ++ aspect_grid_planet_use xindent yindent a)) as Hp.
    destruct (fold_left _ rest _) as [out' xorb'] eqn:Efold in Hp |- *.
    simpl in Hp. subst out'.
    rewrite IH by (rewrite <- Nat.add_1_r; apply (skipn_next _ _ Hk)).
    rewrite map_app, join_app. now rewrite !append_assoc.
Qed.

Lemma cell_planets_glyphs (xorb yorb : Z) (l : list Aspect) :
  cell_planets (map (GlyphCell xorb yorb) l) = [].
Proof. induction l as [|x l IH]; simpl; [reflexivity | exact IH]. Qed.

Lemma cell_planets_pair_cells (a : Planet) (bs : list Planet) (xorb yorb : Z) :
  cell_planets (pair_cells a bs aspects xorb yorb) = [].
Proof.
  revert xorb; induction bs as [|b bs IH]; intros xorb; [reflexivity|].
  cbn [pair_cells]. unfold cell_planets. cbn [flat_map].
  rewrite flat_map_app. fold (cell_planets (map (GlyphCell (xorb + 14) yorb)
    (filter (fun aspect => aspect_joins aspect a b) aspects))).
  rewrite cell_planets_glyphs. apply IH.
Qed.

Lemma cell_planets_grid_cells (rows : list Planet) (xindent yindent : Z) :
  cell_planets (grid_cells rows aspects xindent yindent) = rows.
Proof.
  revert xindent yindent; induction rows as [|a rest IH]; intros x y;
    [reflexivity|].
  cbn [grid_cells]. unfold cell_planets. cbn [flat_map].
  rewrite flat_map_app.
  fold (cell_planets (pair_cells a rest aspects (x + 14) (y - 14 + 14))).
  fold (cell_planets (grid_cells rest aspects (x + 14) (y - 14))).
  now rewrite cell_planets_pair_cells, IH.
Qed.

End AspectGrid.

Lemma draw_aspect_grid_cells (stroke_color : string) (planets : list Planet)
    (aspects : list Aspect) :
  draw_aspect_grid stroke_color planets aspects
  = join (map (render_cell (aspect_grid_style stroke_color))
              (grid_cells (rev (filter is_active planets)) aspects 380 468)).
Proof.
  unfold draw_aspect_grid. cbv zeta.
  rewrite active_loop. cbn [app].
  fold (aspect_grid_style stroke_color).
  pose proof (@row_loop (aspect_grid_style stroke_color) aspects
                (rev (filter is_active planets))
                (rev (filter is_active planets)) 0 EmptyString 380 468
                eq_refl) as H.
  destruct (fold_left _ (combine _ _) _) as [[out x] y].
  exact H.
Qed.

(** C6: the grid has one planet cell per active planet, in the reverse of the
    input order, and nothing for an inactive planet; for the planets A
    (active), B (inactive), C (active) and the one aspect (A, C, 90) it has
    the cell of C, the box where C and A meet with the one glyph orb90, and
    the cell of A. *)
Theorem draw_aspect_grid_active_reversed :
  (forall (stroke_color : string) (planets : list Planet)
          (aspects : list Aspect),
      let rows := rev (filter is_active planets) in
      let cells := grid_cells rows aspects 380 468 in
      draw_aspect_grid stroke_color planets aspects
      = join (map (render_cell (aspect_grid_style stroke_color)) cells)
      /\ cell_planets cells = rows
      /\ draw_aspect_grid stroke_color planets aspects
         = draw_aspect_grid stroke_color (filter is_active planets) aspects)
  /\ (forall (stroke_color : string) (A B C : Planet) (aspect : Aspect),
         is_active A = true -> is_active B = false -> is_active C = true ->
         p1 aspect = planet_id A -> p2 aspect = planet_id C ->
         aspect_degrees aspect = 90%Z ->
         let style := aspect_grid_style stroke_color in
         grid_cells (rev (filter is_active [A; B; C])) [aspect] 380 468
         = [PlanetCell 380 468 C; PairCell 394 468; GlyphCell 408 468 aspect;
            PlanetCell 394 454 A]
         /\ cell_glyphs
              (grid_cells (rev (filter is_active [A; B; C])) [aspect] 380 468)
            = [aspect]
         /\ draw_aspect_grid stroke_color [A; B; C] [aspect]
            = aspect_grid_rect style 380 468 14
                ++ aspect_grid_planet_use 380 468 C
                ++ aspect_grid_rect style 394 468 14
                ++ q "<use  x=`395` y=`469` xlink:href=`#orb90` />"
                ++ aspect_grid_rect style 394 454 14
                ++ aspect_grid_planet_use 394 454 A).
Proof.
  split.
  - intros stroke_color planets aspects. cbv zeta. split; [|split].
    + apply draw_aspect_grid_cells.
    + apply cell_planets_grid_cells.
    + rewrite !draw_aspect_grid_cells.
      assert (E : filter is_active (filter is_active planets)
                  = filter is_active planets).
      { induction planets as [|p l IH]; [reflexivity|]. cbn [filter].
        destruct (is_active p) eqn:Ep; [|exact IH].
        cbn [filter]. now rewrite Ep, IH. }
      now rewrite E.
  - intros stroke_color A B C aspect HA HB HC H1 H2 Hdeg. cbv zeta.
    assert (Ecells :
      grid_cells (rev (filter is_active [A; B; C])) [aspect] 380 468
      = [PlanetCell 380 468 C; PairCell 394 468; GlyphCell 408 468 aspect;
         PlanetCell 394 454 A]).
    { cbn [filter]. rewrite HA, HB, HC. cbn [rev app grid_cells pair_cells].
      assert (J : aspect_joins aspect C A = true).
      { unfold aspect_joins. rewrite H1, H2, !Z.eqb_refl.
        now rewrite orb_true_r. }
      cbn [filter]. rewrite J. reflexivity. }
    split; [exact Ecells|]. split.
    + now rewrite Ecells.
    + rewrite draw_aspect_grid_cells, Ecells.
      cbn [map join fold_right render_cell].
      rewrite append_empty_r, !append_assoc.
      unfold aspect_grid_orb_use at 1. rewrite Hdeg. reflexivity.
Qed.

Lemma draw_aspect_grid_active_reversed_witness :
  draw_aspect_grid "#000" sample_planets [sample_aspect]
  = q ("<rect x=`380` y=`468` width=`14` height=`14` style=`stroke:#000; stroke-width: 1px; stroke-opacity:.6; fill:none`/>"
    ++ "<use transform=`scale(0.4)` x=`955.0` y=`1172.5` xlink:href=`#Mars` />"
    ++ "<rect x=`394` y=`468` width=`14` height=`14` style=`stroke:#000; stroke-width: 1px; stroke-opacity:.6; fill:none`/>"
    ++ "<use  x=`395` y=`469` xlink:href=`#orb90` />"
    ++ "<rect x=`394` y=`454` width=`14` height=`14` style=`stroke:#000; stroke-width: 1px; stroke-opacity:.6; fill:none`/>"
    ++ "<use transform=`scale(0.4)` x=`990.0` y=`1137.5` xlink:href=`#Sun` />").
Proof.
  pose proof (proj2 draw_aspect_grid_active_reversed "#000"
                {| planet_id := 0; planet_name := "Sun"; is_active := true |}
                {| planet_id := 1; planet_name := "Moon"; is_active := false |}
                {| planet_id := 2; planet_name := "Mars"; is_active := true |}
                sample_aspect eq_refl eq_refl eq_refl eq_refl eq_refl eq_refl)
    as [_ [_ E]].
  unfold sample_planets. rewrite E. reflexivity.
Defined.

(** * Further properties of the module *)

(** ** CoordinateProjector *)

Section ProjectionGeometry.

Open Scope R_scope.

(** X2: for a non-negative radius both coordinates stay inside the square
    [0, 2 radius] x [0, 2 radius]. *)
Theorem sliceTo_in_square (slice radius offset : R) :
  0 <= radius ->
  0 <= sliceToX slice radius offset <= 2 * radius
  /\ 0 <= sliceToY slice radius offset <= 2 * radius.
Proof.
  intros Hr. rewrite sliceToX_radial, sliceToY_radial.
  pose proof (COS_bound (radial_angle slice offset)) as [Hc1 Hc2].
  pose proof (SIN_bound (radial_angle slice offset)) as [Hs1 Hs2].
  split; split; nra.
Qed.

Lemma sliceTo_in_square_witness :
  0 <= 5
  /\ 0 <= sliceToX 3 5 45 <= 2 * 5 /\ 0 <= sliceToY 3 5 45 <= 2 * 5.
Proof.
  assert (H : 0 <= 5) by lra.
  split; [exact H|]. exact (sliceTo_in_square 3 45 H).
Defined.

(** *** degreeDiff *)

(** X3: for two degrees at most 360 apart degreeDiff is the shorter of the
    two arcs between them: the smaller of |a - b| and 360 - |a - b|. *)
Theorem degreeDiff_shorter_arc (a b : R) :
  Rabs (a - b) <= 360 ->
  degreeDiff a b = Rmin (Rabs (a - b)) (360 - Rabs (a - b)).
Proof.
  intros H. unfold Rmin, Rabs in *.
  destruct (Rtotal_order a b) as [Hlt | [Heq | Hgt]].
  - rewrite (degreeDiff_lt Hlt).
    destruct (Rcase_abs (a - b)); [|lra].
    destruct (Rgt_dec (b - a) 180);
      destruct (Rle_dec (- (a - b)) (360 - - (a - b))); lra.
  - subst b. rewrite degreeDiff_eq.
    destruct (Rcase_abs (a - a)); [lra|].
    destruct (Rle_dec (a - a) (360 - (a - a))); lra.
  - rewrite (degreeDiff_gt Hgt).
    destruct (Rcase_abs (a - b)); [lra|].
    destruct (Rgt_dec (a - b) 180);
      destruct (Rle_dec (a - b) (360 - (a - b))); lra.
Qed.

Lemma degreeDiff_shorter_arc_witness :
  Rabs (350 - 10) <= 360
  /\ degreeDiff 350 10 = Rmin (Rabs (350 - 10)) (360 - Rabs (350 - 10)).
Proof.
  assert (H : Rabs (350 - 10) <= 360).
  { unfold Rabs. destruct (Rcase_abs (350 - 10)); lra. }
  split; [exact H|]. exact (degreeDiff_shorter_arc 350 10 H).
Defined.

End ProjectionGeometry.

(** ** RingRenderer *)

Section RingGeometry.

Open Scope R_scope.

Variable str_float : R -> string.

(** X8: the ticks of the transit ring are the ticks of the degree ring drawn
    with c1 = 0 in the colour #F00; the two groups differ in their id only. *)
Theorem transit_ring_steps_are_degree_ring_steps (r seventh : R) :
  (forall i : nat,
      transit_ring_degree_step str_float r seventh i
      = degree_ring_step str_float r 0 seventh "#F00" i)
  /\ (exists ticks : string,
         draw_transit_ring_degree_steps str_float r seventh
         = q "<g id=`transitRingDegreeSteps`>" ++ ticks ++ "</g>"
         /\ draw_degree_ring str_float r 0 seventh "#F00"
            = q "<g id=`degreeRing`>" ++ ticks ++ "</g>").
Proof.
  assert (E : forall i : nat,
             transit_ring_degree_step str_float r seventh i
             = degree_ring_step str_float r 0 seventh "#F00" i).
  { intros i. unfold transit_ring_degree_step, degree_ring_step. cbv zeta.
    replace (r - 0) with r by ring.
    replace (r + 2 - 0) with (r + 2) by ring.
    now rewrite !Rplus_0_r. }
  split; [exact E|].
  exists (join (map (degree_ring_step str_float r 0 seventh "#F00") (seq 0 72))).
  unfold draw_transit_ring_degree_steps, draw_degree_ring. cbv zeta.
  rewrite !fold_left_append, !append_assoc. split; [|reflexivity].
  do 3 f_equal. apply map_ext. exact E.
Qed.

(** X9: draw_first_circle and draw_second_circle raise exactly when the
    chart is neither Synastry nor Transit and the radius c1 (c2) is absent;
    for Synastry and Transit the radius given is not read. *)
Theorem circles_raise_iff_radius_missing (r : R)
    (stroke_color fill_color : string) (chart_type : ChartType) :
  (forall c1 : option R,
      (exists e, draw_first_circle str_float r stroke_color chart_type c1
                 = Raise e)
      <-> is_transit_or_synastry chart_type = false /\ c1 = None)
  /\ (forall c2 : option R,
         (exists e, draw_second_circle str_float r stroke_color fill_color
                      chart_type c2 = Raise e)
         <-> is_transit_or_synastry chart_type = false /\ c2 = None)
  /\ (is_transit_or_synastry chart_type = true ->
      forall c c' : option R,
        draw_first_circle str_float r stroke_color chart_type c
        = draw_first_circle str_float r stroke_color chart_type c'
        /\ draw_second_circle str_float r stroke_color fill_color chart_type c
           = draw_second_circle str_float r stroke_color fill_color
               chart_type c').
Proof.
  unfold draw_first_circle, draw_second_circle.
  destruct (is_transit_or_synastry chart_type).
  - split; [|split].
    + intros c1. split; [intros [e H]; discriminate H|].
      intros [H _]; discriminate H.
    + intros c2. split; [intros [e H]; discriminate H|].
      intros [H _]; discriminate H.
    + intros _ c c'. split; reflexivity.
  - split; [|split].
    + intros c1. split.
      * intros [e H]. destruct c1; [discriminate H | now split].
      * intros [_ ->]. eexists. reflexivity.
    + intros c2. split.
      * intros [e H]. destruct c2; [discriminate H | now split].
      * intros [_ ->]. eexists. reflexivity.
    + discriminate.
Qed.

End RingGeometry.

Lemma circles_raise_iff_radius_missing_witness :
  is_transit_or_synastry Transit = true
  /\ draw_first_circle (fun _ => "#") 200 "#000" Transit None
     = draw_first_circle (fun _ => "#") 200 "#000" Transit (Some 10%R).
Proof.
  assert (H : is_transit_or_synastry Transit = true) by reflexivity.
  split; [exact H|].
  exact (proj1 (proj2 (proj2 (circles_raise_iff_radius_missing
                                (fun _ => "#") 200 "#000" "#fff"
                                Transit)) H None (Some 10%R))).
Defined.

(** ** CoordinateProjector: time zone offsets *)

Section Hours.

Open Scope Q_scope.

(** X12: offsetToTz raises exactly for an absent offset; the microseconds
    of a present offset are not read; and an offset whose seconds are a whole
    number k of hours, 3600 k, gives days * 24 + k hours. *)
Theorem offsetToTz_hours :
  (forall datetime_offset : option timedelta,
      (exists e, offsetToTz datetime_offset = Raise e)
      <-> datetime_offset = None)
  /\ (forall d d' : timedelta,
         days d = days d' -> seconds d = seconds d' ->
         offsetToTz (Some d) = offsetToTz (Some d'))
  /\ (forall (d : timedelta) (k : Z),
         seconds d = (3600 * k)%Z ->
         exists hours : Q,
           offsetToTz (Some d) = Ok hours
           /\ hours == inject_Z (days d * 24 + k)).
Proof.
  split; [|split].
  - intros [d|]; split.
    + intros [e H]. discriminate H.
    + discriminate.
    + reflexivity.
    + intros _. eexists. reflexivity.
  - intros d d' Hd Hs. unfold offsetToTz. now rewrite Hd, Hs.
  - intros d k Hk. eexists. split; [reflexivity|]. cbv zeta.
    rewrite Hk, !inject_Z_plus, !inject_Z_mult. field.
Qed.

Lemma offsetToTz_hours_witness :
  seconds {| days := -1; seconds := 68400; microseconds := 0 |}
  = (3600 * 19)%Z
  /\ (exists hours : Q,
         offsetToTz (Some {| days := -1; seconds := 68400;
                             microseconds := 0 |}) = Ok hours
         /\ hours == inject_Z (-5))
  /\ offsetToTz (Some {| days := -1; seconds := 68400; microseconds := 0 |})
     = offsetToTz (Some {| days := -1; seconds := 68400; microseconds := 5 |}).
Proof.
  assert (H : seconds {| days := -1; seconds := 68400; microseconds := 0 |}
              = (3600 * 19)%Z) by reflexivity.
  split; [exact H|]. split.
  - exact (proj2 (proj2 offsetToTz_hours)
             {| days := -1; seconds := 68400; microseconds := 0 |} 19%Z H).
  - exact (proj1 (proj2 offsetToTz_hours)
             {| days := -1; seconds := 68400; microseconds := 0 |}
             {| days := -1; seconds := 68400; microseconds := 5 |}
             eq_refl eq_refl).
Defined.

End Hours.

(** ** Truncation and rounding of rationals *)

Section Rounding.

Open Scope Q_scope.

Lemma py_int_floor (x : Q) : 0 <= x -> py_int x = Qfloor x.
Proof.
  destruct x as [n d]. unfold Qle, py_int, Qfloor. cbn [Qnum Qden].
  intros H. apply Z.quot_div_nonneg; lia.
Qed.

Lemma py_int_nonneg (x : Q) :
  0 <= x ->
  (0 <= py_int x)%Z /\ inject_Z (py_int x) <= x < inject_Z (py_int x) + 1.
Proof.
  intros H. rewrite (py_int_floor H).
  pose proof (Qfloor_le x) as H1. pose proof (Qlt_floor x) as H2.
  rewrite inject_Z_plus in H2.
  pose proof (@Qfloor_resp_le 0 x H) as H3.
  change (0 <= Qfloor x)%Z in H3.
  repeat split; assumption.
Qed.

Lemma py_round_cases (x : Q) :
  (py_round x = Qfloor x /\ x - inject_Z (Qfloor x) <= 1 # 2)
  \/ (py_round x = (Qfloor x + 1)%Z /\ 1 # 2 <= x - inject_Z (Qfloor x)).
Proof.
  unfold py_round. cbv zeta.
  destruct (Qcompare_spec (x - inject_Z (Qfloor x)) (1 # 2)) as [E | L | G].
  - destruct (Z.even (Qfloor x)); [left | right]; split;
      try reflexivity; rewrite E; apply Qle_refl.
  - left. split; [reflexivity | now apply Qlt_le_weak].
  - right. split; [reflexivity | now apply Qlt_le_weak].
Qed.

Lemma py_round_error (x : Q) :
  x - (1 # 2) <= inject_Z (py_round x) <= x + (1 # 2).
Proof.
  pose proof (Qfloor_le x) as H1. pose proof (Qlt_floor x) as H2.
  rewrite inject_Z_plus in H2.
  change (inject_Z 1) with 1 in H2.
  destruct (py_round_cases x) as [[-> H] | [-> H]].
  - revert H1 H2 H. generalize (inject_Z (Qfloor x)). intros f H1 H2 H.
    split; lra.
  - rewrite inject_Z_plus. change (inject_Z 1) with 1.
    revert H1 H2 H. generalize (inject_Z (Qfloor x)). intros f H1 H2 H.
    split; lra.
Qed.

Lemma py_round_between (lo hi : Z) (x : Q) :
  inject_Z lo <= x <= inject_Z hi -> (lo <= py_round x <= hi)%Z.
Proof.
  intros [Hlo Hhi].
  pose proof (@Qfloor_resp_le _ _ Hlo) as H1. rewrite Qfloor_Z in H1.
  pose proof (@Qfloor_resp_le _ _ Hhi) as H2. rewrite Qfloor_Z in H2.
  pose proof (Qfloor_le x) as H3.
  destruct (py_round_cases x) as [[-> H] | [-> H]]; [lia|].
  split; [lia|].
  assert (Hlt : inject_Z (Qfloor x) < inject_Z hi).
  { revert H3 H Hhi. generalize (inject_Z (Qfloor x)) (inject_Z hi).
    intros f h H3 H Hhi. lra. }
  rewrite <- Zlt_Qlt in Hlt. lia.
Qed.

End Rounding.

(** ** DegreeFormatter *)

Section FormatterFields.

Open Scope Q_scope.

(** The three fields of a non-negative value: a non-negative degree, a
    minute in 0..59 and a second in 0..60. *)
Lemma sexagesimal_fields (c : Q) :
  0 <= c ->
  let deg := py_int c in
  let min := py_int ((c - inject_Z deg) * 60) in
  let sec := py_round ((((c - inject_Z deg) * 60) - inject_Z min) * 60) in
  (0 <= deg)%Z /\ (0 <= min <= 59)%Z /\ (0 <= sec <= 60)%Z.
Proof.
  intros Hc. cbv zeta.
  destruct (py_int_nonneg Hc) as [Hdeg [Hd1 Hd2]].
  set (deg := py_int c) in *.
  assert (Hm : 0 <= (c - inject_Z deg) * 60).
  { revert Hd1 Hd2. generalize (inject_Z deg). intros d Hd1 Hd2. lra. }
  destruct (py_int_nonneg Hm) as [Hmin [Hm1 Hm2]].
  set (min := py_int ((c - inject_Z deg) * 60)) in *.
  assert (Hmin' : (min < 60)%Z).
  { rewrite Zlt_Qlt. change (inject_Z 60) with 60.
    revert Hd1 Hd2 Hm1. generalize (inject_Z deg) (inject_Z min).
    intros d m Hd1 Hd2 Hm1. lra. }
  split; [exact Hdeg|]. split; [lia|].
  apply py_round_between. change (inject_Z 0) with 0.
  change (inject_Z 60) with 60.
  revert Hm1 Hm2. generalize (inject_Z deg) (inject_Z min).
  intros d m Hm1 Hm2. split; lra.
Qed.

(** X13: both coordinate converters print a non-negative degree, a minute in
    0..59 and a second in 0..60, followed by the first label for a
    coordinate that is not negative and by the second for a negative one. *)
Theorem coordinate_fields_bounds (coord : Q) (first_label second_label : string) :
  let sign := if Qlt_le_dec coord 0 then second_label else first_label in
  convert_latitude_coordinate_to_string coord first_label second_label
  = coordinate_text (coordinate_fields coord) sign
  /\ convert_longitude_coordinate_to_string coord first_label second_label
     = coordinate_text (coordinate_fields coord) sign
  /\ (0 <= fst (fst (coordinate_fields coord)))%Z
  /\ (0 <= snd (fst (coordinate_fields coord)) <= 59)%Z
  /\ (0 <= snd (coordinate_fields coord) <= 60)%Z.
Proof.
  cbv zeta.
  unfold convert_latitude_coordinate_to_string,
    convert_longitude_coordinate_to_string, coordinate_fields, coordinate_text.
  destruct (Qlt_le_dec coord 0) as [Hneg | Hpos]; cbv zeta; cbn [fst snd].
  - split; [reflexivity|]. split; [reflexivity|].
    apply sexagesimal_fields. apply Qabs_nonneg.
  - split; [reflexivity|]. split; [reflexivity|].
    now apply sexagesimal_fields.
Qed.

(** X14: a positive coordinate and its opposite print the same three fields
    with the two labels exchanged. *)
Theorem coordinate_mirror (coord : Q) (first_label second_label : string) :
  0 < coord ->
  convert_latitude_coordinate_to_string (- coord) first_label second_label
  = convert_latitude_coordinate_to_string coord second_label first_label
  /\ convert_longitude_coordinate_to_string (- coord) first_label second_label
     = convert_longitude_coordinate_to_string coord second_label first_label.
Proof.
  intros H.
  assert (Eabs : Qabs (- coord) = coord).
  { destruct coord as [[|n|n] d]; try reflexivity;
      unfold Qlt in H; cbn in H; lia. }
  unfold convert_latitude_coordinate_to_string,
    convert_longitude_coordinate_to_string.
  destruct (Qlt_le_dec (- coord) 0) as [_ | Hge]; [|lra].
  destruct (Qlt_le_dec coord 0) as [Hlt | _]; [lra|].
  rewrite Eabs. split; reflexivity.
Qed.

Lemma coordinate_mirror_witness :
  0 < 21 # 2
  /\ convert_latitude_coordinate_to_string (- (21 # 2)) "N" "S"
     = convert_latitude_coordinate_to_string (21 # 2) "S" "N".
Proof.
  assert (H : 0 < 21 # 2) by reflexivity.
  split; [exact H|].
  exact (proj1 (coordinate_mirror "N" "S" H)).
Defined.

Lemma decimal_fields_nonneg (dec : Q) :
  0 <= dec ->
  (0 <= dms_a dec)%Z /\ (0 <= dms_b dec <= 59)%Z /\ (0 <= dms_c dec <= 60)%Z.
Proof.
  intros H. unfold dms_c, dms_b, dms_a_new, dms_a.
  exact (sexagesimal_fields H).
Qed.



End FormatterFields.

(** ** SummaryRenderer *)

Section SummaryShares.

Open Scope Q_scope.

Lemma share_bounds (points total : Q) :
  0 <= points -> points <= total -> 0 < total ->
  0 <= 100 * points / total <= 100.
Proof.
  intros H0 H1 Ht. split.
  - apply Qle_shift_div_l; [exact Ht | lra].
  - apply Qle_shift_div_r; [exact Ht | lra].
Qed.

(** X16: for four non-negative totals of ordinary size, at most 10^300
    each, that are not all zero, the summary is rendered, every percentage
    printed lies in 0..100 and the four add up to a number between 98 and
    102. *)
Theorem elements_percentages_rendered
    (fire_label earth_label air_label water_label : string)
    (fire_points earth_points air_points water_points : Q) :
  0 <= fire_points <= inject_Z (10 ^ 300) ->
  0 <= earth_points <= inject_Z (10 ^ 300) ->
  0 <= air_points <= inject_Z (10 ^ 300) ->
  0 <= water_points <= inject_Z (10 ^ 300) ->
  ~ fire_points + earth_points + air_points + water_points == 0 ->
  exists fire earth air water : Z,
    draw_elements_percentages fire_label fire_points earth_label earth_points
      air_label air_points water_label water_points
    = Ok (elements_markup fire_label fire earth_label earth
            air_label air water_label water)
    /\ (0 <= fire <= 100)%Z /\ (0 <= earth <= 100)%Z
    /\ (0 <= air <= 100)%Z /\ (0 <= water <= 100)%Z
    /\ (98 <= fire + earth + air + water <= 102)%Z.
Proof.
  intros [Hf _] [He _] [Ha _] [Hw _] Ht.
  set (total := fire_points + earth_points + air_points + water_points) in *.
  exists (element_percentage fire_points total),
    (element_percentage earth_points total),
    (element_percentage air_points total),
    (element_percentage water_points total).
  split.
  - unfold draw_elements_percentages, true_div. cbv zeta. fold total.
    destruct (Qeq_bool total 0) eqn:E;
      [apply Qeq_bool_iff in E; contradiction|].
    reflexivity.
  - assert (Hpos : 0 < total).
    { assert (0 <= total) by (unfold total; lra).
      destruct (Qlt_le_dec 0 total) as [L | G]; [exact L|].
      exfalso. apply Ht. lra. }
    unfold element_percentage.
    assert (Bf := @share_bounds fire_points total Hf
                    ltac:(unfold total; lra) Hpos).
    assert (Be := @share_bounds earth_points total He
                    ltac:(unfold total; lra) Hpos).
    assert (Ba := @share_bounds air_points total Ha
                    ltac:(unfold total; lra) Hpos).
    assert (Bw := @share_bounds water_points total Hw
                    ltac:(unfold total; lra) Hpos).
    assert (Hsum : 100 * fire_points / total + 100 * earth_points / total
                   + 100 * air_points / total + 100 * water_points / total
                   == 100).
    { unfold total. field. exact Ht. }
    pose proof (py_round_error (100 * fire_points / total)) as Ef.
    pose proof (py_round_error (100 * earth_points / total)) as Ee.
    pose proof (py_round_error (100 * air_points / total)) as Ea.
    pose proof (py_round_error (100 * water_points / total)) as Ew.
    split; [apply py_round_between; assumption|].
    split; [apply py_round_between; assumption|].
    split; [apply py_round_between; assumption|].
    split; [apply py_round_between; assumption|].
    split.
    + rewrite Zle_Qle, !inject_Z_plus. change (inject_Z 98) with 98.
      revert Hsum Ef Ee Ea Ew.
      generalize (inject_Z (py_round (100 * fire_points / total)))
        (inject_Z (py_round (100 * earth_points / total)))
        (inject_Z (py_round (100 * air_points / total)))
        (inject_Z (py_round (100 * water_points / total)))
        (100 * fire_points / total) (100 * earth_points / total)
        (100 * air_points / total) (100 * water_points / total).
      intros. lra.
    + rewrite Zle_Qle, !inject_Z_plus. change (inject_Z 102) with 102.
      revert Hsum Ef Ee Ea Ew.
      generalize (inject_Z (py_round (100 * fire_points / total)))
        (inject_Z (py_round (100 * earth_points / total)))
        (inject_Z (py_round (100 * air_points / total)))
        (inject_Z (py_round (100 * water_points / total)))
        (100 * fire_points / total) (100 * earth_points / total)
        (100 * air_points / total) (100 * water_points / total).
      intros. lra.
Qed.

Lemma elements_percentages_rendered_witness :
  (0 <= 1 <= inject_Z (10 ^ 300) /\ 0 <= 0 <= inject_Z (10 ^ 300)
   /\ ~ 1 + 1 + 1 + 0 == 0)
  /\ (exists fire earth air water : Z,
         draw_elements_percentages "Fire" 1 "Earth" 1 "Air" 1 "Water" 0
         = Ok (elements_markup "Fire" fire "Earth" earth
                 "Air" air "Water" water)
         /\ (0 <= fire <= 100)%Z /\ (0 <= earth <= 100)%Z
         /\ (0 <= air <= 100)%Z /\ (0 <= water <= 100)%Z
         /\ (98 <= fire + earth + air + water <= 102)%Z)
  /\ draw_elements_percentages "Fire" 1 "Earth" 1 "Air" 1 "Water" 0
     = Ok (elements_markup "Fire" 33 "Earth" 33 "Air" 33 "Water" 0).
Proof.
  assert (H1 : 0 <= 1 <= inject_Z (10 ^ 300))
    by (split; unfold Qle; cbn [Qnum Qden inject_Z]; lia).
  assert (H0 : 0 <= 0 <= inject_Z (10 ^ 300))
    by (split; unfold Qle; cbn [Qnum Qden inject_Z]; lia).
  assert (H : ~ 1 + 1 + 1 + 0 == 0) by discriminate.
  split; [exact (conj H1 (conj H0 H))|]. split; [|reflexivity].
  exact (@elements_percentages_rendered "Fire" "Earth" "Air" "Water"
           1 1 1 0 H1 H1 H1 H0 H).
Defined.

End SummaryShares.

(** ** DegreeFormatter on negative values *)

Section FormatterOdd.

Open Scope Q_scope.

Lemma py_int_opp (x : Q) : py_int (- x) = (- py_int x)%Z.
Proof.
  destruct x as [n d]. unfold py_int. cbn [Qopp Qnum Qden].
  apply Z.quot_opp_l. discriminate.
Qed.

Lemma py_int_comp (x y : Q) : x == y -> py_int x = py_int y.
Proof.
  intros E. destruct (Qlt_le_dec x 0) as [Hneg | Hpos].
  - assert (Hx : 0 <= - x) by lra. assert (Hy : 0 <= - y) by lra.
    assert (E' : - x == - y) by (rewrite E; reflexivity).
    pose proof (py_int_opp x) as Ex. pose proof (py_int_opp y) as Ey.
    rewrite (py_int_floor Hx) in Ex. rewrite (py_int_floor Hy) in Ey.
    rewrite (Qfloor_comp _ _ E') in Ex. lia.
  - assert (Hy : 0 <= y) by lra.
    rewrite (py_int_floor Hpos), (py_int_floor Hy).
    now apply Qfloor_comp.
Qed.

Lemma py_round_comp (x y : Q) : x == y -> py_round x = py_round y.
Proof.
  intros E. unfold py_round. cbv zeta.
  rewrite (Qfloor_comp _ _ E).
  assert (E' : x - inject_Z (Qfloor y) == y - inject_Z (Qfloor y))
    by (rewrite E; reflexivity).
  now rewrite (Qcompare_comp _ _ E' (1 # 2) (1 # 2) (Qeq_refl _)).
Qed.

Lemma Qfloor_opp_cases (x : Q) :
  (Qfloor (- x) = (- Qfloor x)%Z /\ x == inject_Z (Qfloor x))
  \/ (Qfloor (- x) = (- Qfloor x - 1)%Z /\ inject_Z (Qfloor x) < x).
Proof.
  pose proof (Qfloor_le x) as F1. pose proof (Qlt_floor x) as F2.
  pose proof (Qfloor_le (- x)) as G1. pose proof (Qlt_floor (- x)) as G2.
  rewrite inject_Z_plus in F2, G2. change (inject_Z 1) with 1 in F2, G2.
  assert (H1 : (Qfloor x <= - Qfloor (- x))%Z).
  { rewrite Zle_Qle, inject_Z_opp. revert F1 G1.
    generalize (inject_Z (Qfloor x)) (inject_Z (Qfloor (- x))).
    intros f g F1 G1. lra. }
  assert (H2 : (- Qfloor (- x) < Qfloor x + 2)%Z).
  { rewrite Zlt_Qlt, inject_Z_opp, inject_Z_plus.
    change (inject_Z 2) with 2. revert F2 G2.
    generalize (inject_Z (Qfloor x)) (inject_Z (Qfloor (- x))).
    intros f g F2 G2. lra. }
  destruct (Z.eq_dec (- Qfloor (- x)) (Qfloor x)) as [E | N].
  - left. split; [lia|].
    assert (E' : inject_Z (Qfloor (- x)) == - inject_Z (Qfloor x)).
    { rewrite <- inject_Z_opp. now replace (- Qfloor x)%Z with (Qfloor (- x)) by lia. }
    revert F1 G1 E'. generalize (inject_Z (Qfloor x)) (inject_Z (Qfloor (- x))).
    intros f g F1 G1 E'. lra.
  - right. split; [lia|].
    assert (E' : inject_Z (Qfloor (- x)) == - inject_Z (Qfloor x) - 1).
    { replace (Qfloor (- x)) with (- Qfloor x + -1)%Z by lia.
      rewrite inject_Z_plus, inject_Z_opp. reflexivity. }
    revert F1 G2 E'. generalize (inject_Z (Qfloor x)) (inject_Z (Qfloor (- x))).
    intros f g F1 G2 E'. lra.
Qed.

Lemma py_round_opp (x : Q) : py_round (- x) = (- py_round x)%Z.
Proof.
  pose proof (Qfloor_le x) as F1. pose proof (Qlt_floor x) as F2.
  rewrite inject_Z_plus in F2. change (inject_Z 1) with 1 in F2.
  unfold py_round. cbv zeta.
  destruct (Qfloor_opp_cases x) as [[Eg Ex] | [Eg Hx]]; rewrite Eg.
  - rewrite inject_Z_opp.
    destruct (Qcompare_spec (- x - - inject_Z (Qfloor x)) (1 # 2))
      as [A | A | A];
      destruct (Qcompare_spec (x - inject_Z (Qfloor x)) (1 # 2))
        as [B | B | B];
      try reflexivity; exfalso; revert Ex A B;
      generalize (inject_Z (Qfloor x)); intros f Ex A B; lra.
  - assert (Ev : Z.even (- Qfloor x - 1) = negb (Z.even (Qfloor x))).
    { replace (- Qfloor x - 1)%Z with (- (Qfloor x + 1))%Z by lia.
      rewrite Z.even_opp, Z.even_add. now destruct (Z.even (Qfloor x)). }
    rewrite Ev.
    assert (Ei : inject_Z (- Qfloor x - 1) = - inject_Z (Qfloor x) + -1).
    { replace (- Qfloor x - 1)%Z with (- Qfloor x + -1)%Z by lia.
      unfold inject_Z, Qopp, Qplus. cbn [Qnum Qden]. f_equal. lia. }
    rewrite Ei.
    destruct (Qcompare_spec (- x - (- inject_Z (Qfloor x) + -1)) (1 # 2))
      as [A | A | A];
      destruct (Qcompare_spec (x - inject_Z (Qfloor x)) (1 # 2))
        as [B | B | B];
      try (exfalso; revert A B; generalize (inject_Z (Qfloor x));
           intros f A B; lra);
      try lia.
    destruct (Z.even (Qfloor x)); cbn [negb]; lia.
Qed.

Lemma dms_a_new_opp (dec : Q) : dms_a_new (- dec) == - dms_a_new dec.
Proof.
  unfold dms_a_new, dms_a. rewrite py_int_opp, inject_Z_opp. ring.
Qed.

(** X17: the fields of a negated value are the negated fields, each on its
    own: the degree, both minutes and the second change sign, so a value
    between -1 and 0 prints a zero degree and carries its sign in the minute
    and second fields. *)
Theorem decimal_degree_fields_odd (dec : Q) :
  dms_a (- dec) = (- dms_a dec)%Z
  /\ dms_b (- dec) = (- dms_b dec)%Z
  /\ dms_b_rounded (- dec) = (- dms_b_rounded dec)%Z
  /\ dms_c (- dec) = (- dms_c dec)%Z
  /\ (-1 < dec -> dec <= 0 ->
      convert_decimal_to_degree_string dec (PyStr "3")
      = Ok ("00&#176;" ++ fmt_02d (dms_b dec) ++ "&#39;"
              ++ fmt_02d (dms_c dec) ++ "&#34;")
      /\ (dms_b dec <= 0)%Z /\ (dms_c dec <= 0)%Z).
Proof.
  assert (Ea : dms_a (- dec) = (- dms_a dec)%Z) by apply py_int_opp.
  assert (Eb : dms_b (- dec) = (- dms_b dec)%Z).
  { unfold dms_b. rewrite (py_int_comp (dms_a_new_opp dec)).
    apply py_int_opp. }
  assert (Er : dms_b_rounded (- dec) = (- dms_b_rounded dec)%Z).
  { unfold dms_b_rounded. rewrite (py_round_comp (dms_a_new_opp dec)).
    apply py_round_opp. }
  assert (Ec : dms_c (- dec) = (- dms_c dec)%Z).
  { unfold dms_c. rewrite Eb.
    assert (E : (dms_a_new (- dec) - inject_Z (- dms_b dec)) * 60
                == - ((dms_a_new dec - inject_Z (dms_b dec)) * 60)).
    { rewrite dms_a_new_opp, inject_Z_opp. ring. }
    rewrite (py_round_comp E). apply py_round_opp. }
  split; [exact Ea|]. split; [exact Eb|]. split; [exact Er|].
  split; [exact Ec|].
  intros Hlo Hhi.
  assert (Hn : 0 <= - dec) by lra.
  pose proof (decimal_fields_nonneg Hn) as [Ha [Hb Hc]].
  assert (Hzero : dms_a dec = 0%Z).
  { destruct (py_int_nonneg Hn) as [_ [H1 _]].
    assert (H3 : inject_Z (py_int (- dec)) < inject_Z 1).
    { change (inject_Z 1) with 1. revert H1.
      generalize (inject_Z (py_int (- dec))). intros d H1. lra. }
    rewrite <- Zlt_Qlt in H3. unfold dms_a in *. lia. }
  split; [|lia].
  unfold convert_decimal_to_degree_string.
  cbn [py_eq_str String.eqb Ascii.eqb Bool.eqb].
  now rewrite Hzero.
Qed.

Lemma decimal_degree_fields_odd_witness :
  (-1 < - (1 # 2) /\ - (1 # 2) <= 0)
  /\ convert_decimal_to_degree_string (- (1 # 2)) (PyStr "3")
     = Ok "00&#176;-30&#39;00&#34;".
Proof.
  assert (H1 : -1 < - (1 # 2)) by reflexivity.
  assert (H2 : - (1 # 2) <= 0) by (unfold Qle; cbn; lia).
  split; [exact (conj H1 H2)|].
  rewrite (proj1 (proj2 (proj2 (proj2 (proj2
             (decimal_degree_fields_odd (- (1 # 2)))))) H1 H2)).
  reflexivity.
Defined.

End FormatterOdd.

(** ** DegreeFormatter: the precision levels *)

Section FormatterLevels.

Open Scope Q_scope.

Lemma py_int_within_one (x : Q) : -1 < x - inject_Z (py_int x) < 1.
Proof.
  destruct (Qlt_le_dec x 0) as [Hneg | Hpos].
  - assert (Hn : 0 <= - x) by lra.
    destruct (py_int_nonneg Hn) as [_ [H1 H2]].
    assert (E : py_int x = (- py_int (- x))%Z).
    { rewrite <- py_int_opp. apply py_int_comp. ring. }
    rewrite E, inject_Z_opp. revert H1 H2.
    generalize (inject_Z (py_int (- x))). intros p H1 H2. split; lra.
  - destruct (py_int_nonneg Hpos) as [_ [H1 H2]]. revert H1 H2.
    generalize (inject_Z (py_int x)). intros p H1 H2. split; lra.
Qed.

Lemma dms_minute_accuracy (dec : Q) :
  - (1 # 60)
  < dec - (inject_Z (dms_a dec) + inject_Z (dms_b_rounded dec) / 60)
  < 1 # 60.
Proof.
  unfold dms_b_rounded.
  pose proof (py_round_error (dms_a_new dec)) as [H1 H2].
  assert (E : dec == inject_Z (dms_a dec) + dms_a_new dec / 60)
    by (unfold dms_a_new; field).
  unfold Qdiv in *. change (/ 60) with (1 # 60) in *.
  revert H1 H2 E.
  generalize (inject_Z (py_round (dms_a_new dec))) (dms_a_new dec)
    (inject_Z (dms_a dec)).
  intros m y a H1 H2 E. split; lra.
Qed.

Lemma dms_second_accuracy (dec : Q) :
  - (1 # 3600)
  < dec - (inject_Z (dms_a dec) + inject_Z (dms_b dec) / 60
           + inject_Z (dms_c dec) / 3600)
  < 1 # 3600.
Proof.
  unfold dms_c.
  pose proof (py_round_error
                ((dms_a_new dec - inject_Z (dms_b dec)) * 60)) as [H1 H2].
  assert (E : dec == inject_Z (dms_a dec) + dms_a_new dec / 60)
    by (unfold dms_a_new; field).
  unfold Qdiv in *. change (/ 60) with (1 # 60) in *.
  change (/ 3600) with (1 # 3600) in *.
  revert H1 H2 E.
  generalize
    (inject_Z (py_round ((dms_a_new dec - inject_Z (dms_b dec)) * 60)))
    (dms_a_new dec) (inject_Z (dms_b dec)) (inject_Z (dms_a dec)).
  intros c y b a H1 H2 E. split; lra.
Qed.

(** C4, as the code has it: for the precision levels "1", "2" and "3", given
    as strings, the function returns the degree, the degree and minute, and
    the degree, minute and second of dec, each text being within one degree,
    one minute and one second of dec; for every other value, the integers 1,
    2 and 3 among them, it raises the exception. *)
Theorem convert_decimal_to_degree_string_levels (dec : Q) :
  (exists a : Z,
      convert_decimal_to_degree_string dec (PyStr "1")
      = Ok (fmt_02d a ++ "&#176;")
      /\ -1 < dec - inject_Z a < 1)
  /\ (exists a b : Z,
         convert_decimal_to_degree_string dec (PyStr "2")
         = Ok (fmt_02d a ++ "&#176;" ++ fmt_02d b ++ "&#39;")
         /\ - (1 # 60) < dec - (inject_Z a + inject_Z b / 60) < 1 # 60)
  /\ (exists a b c : Z,
         convert_decimal_to_degree_string dec (PyStr "3")
         = Ok (fmt_02d a ++ "&#176;" ++ fmt_02d b ++ "&#39;"
                 ++ fmt_02d c ++ "&#34;")
         /\ - (1 # 3600)
            < dec - (inject_Z a + inject_Z b / 60 + inject_Z c / 3600)
            < 1 # 3600)
  /\ (forall type : pyval,
         type <> PyStr "1" -> type <> PyStr "2" -> type <> PyStr "3" ->
         convert_decimal_to_degree_string dec type
         = Raise (KerykeionException
                    ("Wrong type: " ++ str_pyval type
                       ++ ", it must be 1, 2 or 3."))).
Proof.
  split; [|split; [|split]].
  - exists (dms_a dec). split; [reflexivity | apply py_int_within_one].
  - exists (dms_a dec), (dms_b_rounded dec).
    split; [reflexivity | apply dms_minute_accuracy].
  - exists (dms_a dec), (dms_b dec), (dms_c dec).
    split; [reflexivity | apply dms_second_accuracy].
  - intros type H1 H2 H3. unfold convert_decimal_to_degree_string.
    destruct type as [s | n]; [|reflexivity].
    cbn [py_eq_str].
    assert (E1 : String.eqb s "1" = false)
      by (apply String.eqb_neq; congruence).
    assert (E2 : String.eqb s "2" = false)
      by (apply String.eqb_neq; congruence).
    assert (E3 : String.eqb s "3" = false)
      by (apply String.eqb_neq; congruence).
    now rewrite E3, E2, E1.
Qed.

Lemma convert_decimal_to_degree_string_levels_witness :
  (PyStr "4" <> PyStr "1" /\ PyStr "4" <> PyStr "2" /\ PyStr "4" <> PyStr "3")
  /\ convert_decimal_to_degree_string (521234567 # 10000000) (PyStr "4")
     = Raise (KerykeionException "Wrong type: 4, it must be 1, 2 or 3.")
  /\ convert_decimal_to_degree_string (521234567 # 10000000) (PyStr "1")
     = Ok "52&#176;"
  /\ convert_decimal_to_degree_string (521234567 # 10000000) (PyStr "2")
     = Ok "52&#176;07&#39;"
  /\ convert_decimal_to_degree_string (521234567 # 10000000) (PyStr "3")
     = Ok "52&#176;07&#39;24&#34;"
  /\ convert_decimal_to_degree_string (2471 # 20) (PyStr "2")
     = Ok "123&#176;33&#39;".
Proof.
  assert (H1 : PyStr "4" <> PyStr "1") by discriminate.
  assert (H2 : PyStr "4" <> PyStr "2") by discriminate.
  assert (H3 : PyStr "4" <> PyStr "3") by discriminate.
  split; [exact (conj H1 (conj H2 H3))|]. split.
  - exact (proj2 (proj2 (proj2 (convert_decimal_to_degree_string_levels
                                  (521234567 # 10000000))))
             (PyStr "4") H1 H2 H3).
  - repeat split.
Defined.

(** C4 as stated fails for the integers: the precision value 3, passed as an
    int, is refused. *)
Lemma convert_decimal_to_degree_string_int_counterexample :
  convert_decimal_to_degree_string (521234567 # 10000000) (PyInt 3)
  = Raise (KerykeionException "Wrong type: 3, it must be 1, 2 or 3.")
  /\ ~ (exists text : string,
           convert_decimal_to_degree_string (521234567 # 10000000) (PyInt 3)
           = Ok text).
Proof.
  split; [reflexivity|]. intros [text H]. discriminate H.
Qed.

End FormatterLevels.

(** ** HouseRenderer: all chart types *)

Section HousesAllCharts.

Variable str_float : R -> string.
Variables (r c1 c3 : R) (first : list R).
Variables (standard first_color tenth seventh fourth : string).

Lemma getitem_cases {A : Type} (xs : list A) (i : nat) (d : A) :
  ((i < List.length xs)%nat /\ getitem xs i = Ok (nth i xs d))
  \/ ((List.length xs <= i)%nat /\ getitem xs i = Raise IndexError).
Proof.
  destruct (Nat.lt_ge_cases i (List.length xs)) as [H | H].
  - left. split; [exact H | now apply getitem_nth].
  - right. split; [exact H|]. unfold getitem.
    now rewrite (proj2 (nth_error_None xs i) H).
Qed.

Ltac read_cusps :=
  repeat match goal with
    | |- context [getitem ?xs ?j] =>
        let E := fresh "E" in
        destruct (getitem_cases xs j 0%R) as [[? E] | [? E]];
        rewrite E; clear E; cbn [bind]
    end.

Ltac finish_house_step :=
  unfold house_cusp_fragment, house_number_fragment, transit_cusp_fragment,
    cusp_line_markup, house_label_markup, overlay_label_markup,
    overlay_cusp_markup;
  rewrite !append_assoc; reflexivity.

Lemma house_step_natal_like (chart_type : ChartType) (second : option (list R))
    (path : string) (i : nat) :
  (i < 12)%nat -> is_transit_or_synastry chart_type = false ->
  (house_step_in_range first chart_type second i ->
   house_step str_float r first standard first_color tenth seventh fourth
     c1 c3 chart_type second path i
   = Ok (path ++ house_fragments str_float r first standard first_color tenth
                   seventh fourth c1 c3 chart_type second i))
  /\ (~ house_step_in_range first chart_type second i ->
      house_step str_float r first standard first_color tenth seventh fourth
        c1 c3 chart_type second path i
      = Raise IndexError)
  /\ (house_step_in_range first chart_type second i
      \/ ~ house_step_in_range first chart_type second i).
Proof.
  intros Hi Hct.
  unfold house_step, house_fragments, house_step_in_range. cbv zeta.
  rewrite Hct. cbv iota.
  change (12 / 2)%nat with 6%nat. change (12 - 1)%nat with 11%nat.
  unfold natal_house_text_offset, natal_house_offset.
  rewrite house_linecolor_cases.
  destruct (Nat.ltb_spec i 11) as [Hlt | Hge].
  - rewrite Nat.mod_small by lia. rewrite <- (Nat.add_1_r i).
    read_cusps;
      try (split; [|split]; [intros [? [? [? [? ?]]]]; exfalso; cbn in *; lia
                            | reflexivity
                            | right; intros [? [? [? [? ?]]]]; cbn in *; lia]).
    split; [|split];
      [intros _
      | intros Hn; exfalso; apply Hn; repeat split; try lia; discriminate
      | left; repeat split; try lia; discriminate].
    finish_house_step.
  - assert (i = 11)%nat by lia. subst i. change (12 mod 12)%nat with 0%nat.
    read_cusps;
      try (split; [|split]; [intros [? [? [? [? ?]]]]; exfalso; cbn in *; lia
                            | reflexivity
                            | right; intros [? [? [? [? ?]]]]; cbn in *; lia]).
    split; [|split];
      [intros _
      | intros Hn; exfalso; apply Hn; repeat split; try lia; discriminate
      | left; repeat split; try lia; discriminate].
    finish_house_step.
Qed.

Lemma house_step_overlay (chart_type : ChartType) (houses : list R)
    (path : string) (i : nat) :
  (i < 12)%nat -> is_transit_or_synastry chart_type = true ->
  (house_step_in_range first chart_type (Some houses) i ->
   house_step str_float r first standard first_color tenth seventh fourth
     c1 c3 chart_type (Some houses) path i
   = Ok (path ++ house_fragments str_float r first standard first_color tenth
                   seventh fourth c1 c3 chart_type (Some houses) i))
  /\ (~ house_step_in_range first chart_type (Some houses) i ->
      house_step str_float r first standard first_color tenth seventh fourth
        c1 c3 chart_type (Some houses) path i
      = Raise IndexError)
  /\ (house_step_in_range first chart_type (Some houses) i
      \/ ~ house_step_in_range first chart_type (Some houses) i).
Proof.
  intros Hi Hct.
  unfold house_step, transit_house, second_subject_house, house_fragments,
    overlay_house_fragments, house_step_in_range.
  cbv zeta. rewrite Hct. cbv iota.
  change (12 / 2)%nat with 6%nat. change (12 - 1)%nat with 11%nat.
  unfold natal_house_text_offset, natal_house_offset.
  rewrite house_linecolor_cases.
  destruct (Nat.ltb_spec i 11) as [Hlt | Hge].
  - rewrite !Nat.mod_small by lia. rewrite <- !(Nat.add_1_r i).
    read_cusps;
      try (split; [|split];
           [intros [? [? [? [? Hov]]]]; destruct (Hov eq_refl) as [? [? ?]];
            exfalso; cbn in *; lia
           | reflexivity
           | right; intros [? [? [? [? Hov]]]];
             destruct (Hov eq_refl) as [? [? ?]]; cbn in *; lia]).
    split; [|split];
      [intros _
      | intros Hn; exfalso; apply Hn; repeat split; lia
      | left; repeat split; lia].
    destruct chart_type; try discriminate Hct;
      cbn [bind]; finish_house_step.
  - assert (i = 11)%nat by lia. subst i. change (12 mod 12)%nat with 0%nat.
    read_cusps;
      try (split; [|split];
           [intros [? [? [? [? Hov]]]]; destruct (Hov eq_refl) as [? [? ?]];
            exfalso; cbn in *; lia
           | reflexivity
           | right; intros [? [? [? [? Hov]]]];
             destruct (Hov eq_refl) as [? [? ?]]; cbn in *; lia]).
    split; [|split];
      [intros _
      | intros Hn; exfalso; apply Hn; repeat split; lia
      | left; repeat split; lia].
    destruct chart_type; try discriminate Hct;
      cbn [bind]; finish_house_step.
Qed.

(** The outcome of one turn of the loop, for any chart type, once the
    second list is known to be there when the chart has an overlay. *)
Lemma house_step_outcome (chart_type : ChartType) (second : option (list R))
    (path : string) (i : nat) :
  (i < 12)%nat ->
  ~ (is_transit_or_synastry chart_type = true /\ second = None) ->
  (house_step_in_range first chart_type second i ->
   house_step str_float r first standard first_color tenth seventh fourth
     c1 c3 chart_type second path i
   = Ok (path ++ house_fragments str_float r first standard first_color tenth
                   seventh fourth c1 c3 chart_type second i))
  /\ (~ house_step_in_range first chart_type second i ->
      house_step str_float r first standard first_color tenth seventh fourth
        c1 c3 chart_type second path i
      = Raise IndexError)
  /\ (house_step_in_range first chart_type second i
      \/ ~ house_step_in_range first chart_type second i).
Proof.
  intros Hi Hsec.
  destruct (is_transit_or_synastry chart_type) eqn:Hct.
  - destruct second as [houses|]; [|exfalso; now apply Hsec].
    now apply house_step_overlay.
  - now apply house_step_natal_like.
Qed.

Lemma for_each_raises {A : Type} (body : string -> A -> result string)
    (f : A -> string) (e : exn) (ok : A -> Prop) (xs : list A) :
  (forall x path, In x xs ->
     (ok x -> body path x = Ok (path ++ f x))
     /\ (~ ok x -> body path x = Raise e)
     /\ (ok x \/ ~ ok x)) ->
  (exists x, In x xs /\ ~ ok x) ->
  forall path, for_each xs path body = Raise e.
Proof.
  induction xs as [|x xs IH]; intros Hbody [y [Hin Hy]] path.
  - destruct Hin.
  - cbn [for_each].
    destruct (Hbody x path (or_introl eq_refl)) as [Hok [Hno [Hx | Hx]]].
    + rewrite (Hok Hx). cbn [bind]. apply IH.
      * intros z p Hz. apply Hbody. now right.
      * destruct Hin as [-> | Hin]; [contradiction|]. now exists y.
    + now rewrite (Hno Hx).
Qed.

Lemma house_steps_in_range (chart_type : ChartType) (second : option (list R)) :
  let len2 :=
    match second with Some houses => List.length houses | None => 0%nat end in
  ((forall i, (i < 12)%nat -> house_step_in_range first chart_type second i)
   <-> (12 <= List.length first)%nat
       /\ (is_transit_or_synastry chart_type = true -> (12 <= len2)%nat))
  /\ (house_step_in_range first chart_type second 10
      <-> (12 <= List.length first)%nat
          /\ (is_transit_or_synastry chart_type = true -> (12 <= len2)%nat)).
Proof.
  cbv zeta. unfold house_step_in_range. cbv zeta.
  split; split.
  - intros H. destruct (H 10%nat ltac:(lia)) as [? [? [? [? Hov]]]].
    split; [lia|]. intros Ht. destruct (Hov Ht) as [? [? ?]]. lia.
  - intros [H1 H2] i Hi. repeat split; try lia; specialize (H2 H); lia.
  - intros [? [? [? [? Hov]]]].
    split; [lia|]. intros Ht. destruct (Hov Ht) as [? [? ?]]. lia.
  - intros [H1 H2]. repeat split; try lia; specialize (H2 H); lia.
Qed.


Lemma draw_houses_loop (chart_type : ChartType) (second : option (list R)) :
  ~ (is_transit_or_synastry chart_type = true /\ second = None) ->
  draw_houses_cusps_and_text_number str_float r first standard first_color
    tenth seventh fourth c1 c3 chart_type second
  = for_each (seq 0 12) EmptyString
      (house_step str_float r first standard first_color tenth seventh
         fourth c1 c3 chart_type second).
Proof.
  intros H. unfold draw_houses_cusps_and_text_number.
  destruct (is_transit_or_synastry chart_type); [|reflexivity].
  destruct second; [reflexivity|]. exfalso. now apply H.
Qed.

Lemma draw_houses_in_range (chart_type : ChartType) (second : option (list R)) :
  ~ (is_transit_or_synastry chart_type = true /\ second = None) ->
  house_step_in_range first chart_type second 10 ->
  draw_houses_cusps_and_text_number str_float r first standard first_color
    tenth seventh fourth c1 c3 chart_type second
  = Ok (join (map (house_fragments str_float r first standard first_color
                     tenth seventh fourth c1 c3 chart_type second)
                  (seq 0 12))).
Proof.
  intros Hsec H10. rewrite (@draw_houses_loop chart_type second Hsec).
  pose proof (house_steps_in_range chart_type second) as [Hall Hten].
  cbv zeta in Hall, Hten.
  pose proof (proj2 Hall (proj1 Hten H10)) as Hevery. clear H10.
  rewrite (@for_each_append nat _
             (house_fragments str_float r first standard first_color tenth
                seventh fourth c1 c3 chart_type second)); [reflexivity|].
  intros i path Hin. apply in_seq in Hin.
  apply house_step_outcome; [lia | exact Hsec | apply Hevery; lia].
Qed.

Lemma draw_houses_out_of_range (chart_type : ChartType)
    (second : option (list R)) :
  ~ (is_transit_or_synastry chart_type = true /\ second = None) ->
  ~ house_step_in_range first chart_type second 10 ->
  draw_houses_cusps_and_text_number str_float r first standard first_color
    tenth seventh fourth c1 c3 chart_type second
  = Raise IndexError.
Proof.
  intros Hsec H10. rewrite (@draw_houses_loop chart_type second Hsec).
  apply (@for_each_raises nat _
           (house_fragments str_float r first standard first_color tenth
              seventh fourth c1 c3 chart_type second)
           IndexError (house_step_in_range first chart_type second)).
  - intros i path Hin. apply in_seq in Hin.
    apply house_step_outcome; [lia | exact Hsec].
  - exists 10%nat. split; [apply in_seq; lia | exact H10].
Qed.

(** X18: for every chart type, when the first list has at least twelve cusps
    and, for a Transit or Synastry chart, the second list is given and has at
    least twelve, the function returns the concatenation, for the houses
    0..11 in order, of the fragments of each house: for Transit and Synastry
    the second subject's label and cusp line, then the first subject's cusp
    line and label. *)
Theorem houses_rendered_for_all_charts (chart_type : ChartType)
    (second : option (list R)) :
  (12 <= List.length first)%nat ->
  (is_transit_or_synastry chart_type = true ->
   exists houses, second = Some houses /\ (12 <= List.length houses)%nat) ->
  draw_houses_cusps_and_text_number str_float r first standard first_color
    tenth seventh fourth c1 c3 chart_type second
  = Ok (join (map (house_fragments str_float r first standard first_color
                     tenth seventh fourth c1 c3 chart_type second)
                  (seq 0 12))).
Proof.
  intros H1 H2. apply draw_houses_in_range.
  - intros [Ht Hn]. destruct (H2 Ht) as [houses [E _]]. congruence.
  - apply (proj2 (house_steps_in_range chart_type second)).
    split; [exact H1|]. intros Ht.
    destruct (H2 Ht) as [houses [-> Hl]]. exact Hl.
Qed.

(** X19: the function raises the KerykeionException exactly when the chart
    is Transit or Synastry and the second list is absent; otherwise it raises
    IndexError exactly when the first list, or for Transit and Synastry the
    second list, has fewer than twelve cusps, and returns markup in every
    other case. *)
Theorem houses_errors (chart_type : ChartType) (second : option (list R)) :
  let len2 :=
    match second with Some houses => List.length houses | None => 0%nat end in
  let result :=
    draw_houses_cusps_and_text_number str_float r first standard first_color
      tenth seventh fourth c1 c3 chart_type second in
  (result = Raise (KerykeionException "second_subject_houses_list is None")
   <-> is_transit_or_synastry chart_type = true /\ second = None)
  /\ (result = Raise IndexError
      <-> ~ (is_transit_or_synastry chart_type = true /\ second = None)
          /\ ((List.length first < 12)%nat
              \/ (is_transit_or_synastry chart_type = true
                  /\ (len2 < 12)%nat)))
  /\ ((exists path, result = Ok path)
      <-> (12 <= List.length first)%nat
          /\ (is_transit_or_synastry chart_type = true ->
              second <> None /\ (12 <= len2)%nat)).
Proof.
  cbv zeta.
  pose proof (house_steps_in_range chart_type second) as [_ Hr].
  cbv zeta in Hr.
  destruct (is_transit_or_synastry chart_type) eqn:Hct.
  - destruct second as [houses|].
    + assert (Hsec : ~ (is_transit_or_synastry chart_type = true
                        /\ Some houses = None)) by (intros [_ H]; discriminate H).
      destruct (Nat.le_gt_cases 12 (List.length first)) as [L1 | L1];
        [destruct (Nat.le_gt_cases 12 (List.length houses)) as [L2 | L2]|].
      * rewrite (@draw_houses_in_range chart_type _ Hsec)
          by (apply Hr; split; [exact L1 | intros _; exact L2]).
        split; [|split]; split; try discriminate.
        -- intros [_ H]; discriminate H.
        -- intros [_ [H | [_ H]]]; lia.
        -- intros _. split; [exact L1|]. intros _. split; [discriminate | exact L2].
        -- intros _. eexists. reflexivity.
      * rewrite (@draw_houses_out_of_range chart_type _ Hsec)
          by (rewrite Hr; intros [_ H]; specialize (H eq_refl); lia).
        split; [|split]; split; try discriminate.
        -- intros [_ H]; discriminate H.
        -- intros _. split; [intros [_ H]; discriminate H | right; split; [reflexivity | exact L2]].
        -- reflexivity.
        -- intros [p H]; discriminate H.
        -- intros [_ H]. destruct (H eq_refl) as [_ H']. lia.
      * rewrite (@draw_houses_out_of_range chart_type _ Hsec)
          by (rewrite Hr; intros [H _]; lia).
        split; [|split]; split; try discriminate.
        -- intros [_ H]; discriminate H.
        -- intros _. split; [intros [_ H]; discriminate H | left; exact L1].
        -- reflexivity.
        -- intros [p H]; discriminate H.
        -- intros [H _]. lia.
    + unfold draw_houses_cusps_and_text_number. rewrite Hct.
      split; [|split]; split; try discriminate.
      * intros _. split; reflexivity.
      * reflexivity.
      * intros [H _]. exfalso. apply H. split; reflexivity.
      * intros [p H]; discriminate H.
      * intros [_ H]. destruct (H eq_refl) as [H' _]. now exfalso.
  - assert (Hsec : ~ (false = true /\ second = None))
      by (intros [H _]; discriminate H).
    rewrite <- Hct in Hsec.
    destruct (Nat.le_gt_cases 12 (List.length first)) as [L1 | L1].
    + rewrite (@draw_houses_in_range chart_type _ Hsec)
        by (apply Hr; split; [exact L1 | discriminate]).
      split; [|split]; split; try discriminate.
      * intros [H _]; discriminate H.
      * intros [_ [H | [H _]]]; [lia | discriminate H].
      * intros _. split; [exact L1 | discriminate].
      * intros _. eexists. reflexivity.
    + rewrite (@draw_houses_out_of_range chart_type _ Hsec)
        by (rewrite Hr; intros [H _]; lia).
      split; [|split]; split; try discriminate.
      * intros [H _]; discriminate H.
      * intros _. split; [intros [H _]; discriminate H | left; exact L1].
      * reflexivity.
      * intros [p H]; discriminate H.
      * intros [H _]. lia.
Qed.

End HousesAllCharts.

Lemma houses_errors_witness :
  (is_transit_or_synastry Transit = true /\ @None (list R) = None)
  /\ draw_houses_cusps_and_text_number (fun _ => "#") 200
       sample_houses "#000" "#f00" "#0f0" "#00f" "#ff0" 10 20 Transit None
     = Raise (KerykeionException "second_subject_houses_list is None").
Proof.
  assert (H : is_transit_or_synastry Transit = true /\ @None (list R) = None)
    by (split; reflexivity).
  split; [exact H|].
  exact (proj2 (proj1 (@houses_errors (fun _ => "#") 200%R 10%R 20%R
                         sample_houses "#000" "#f00" "#0f0" "#00f" "#ff0"
                         Transit None)) H).
Defined.

Lemma houses_rendered_for_all_charts_witness :
  ((12 <= List.length sample_houses)%nat
   /\ (is_transit_or_synastry Synastry = true ->
       exists houses,
         Some sample_houses = Some houses /\ (12 <= List.length houses)%nat))
  /\ draw_houses_cusps_and_text_number (fun _ => "#") 200
       sample_houses "#000" "#f00" "#0f0" "#00f" "#ff0" 10 20 Synastry
       (Some sample_houses)
     = Ok (join (map (house_fragments (fun _ => "#") 200
                        sample_houses "#000" "#f00" "#0f0" "#00f" "#ff0"
                        10 20 Synastry (Some sample_houses)) (seq 0 12))).
Proof.
  assert (H1 : (12 <= List.length sample_houses)%nat) by (cbn; lia).
  assert (H2 : is_transit_or_synastry Synastry = true ->
               exists houses,
                 Some sample_houses = Some houses
                 /\ (12 <= List.length houses)%nat).
  { intros _. exists sample_houses. split; [reflexivity | exact H1]. }
  split; [exact (conj H1 H2)|].
  exact (@houses_rendered_for_all_charts (fun _ => "#") 200%R 10%R
           20%R sample_houses "#000" "#f00" "#0f0" "#00f" "#ff0" Synastry
           (Some sample_houses) H1 H2).
Defined.

Section HousesFirstTwelve.

Variable str_float : R -> string.
Variables (r c1 c3 : R) (first : list R).
Variables (standard first_color tenth seventh fourth : string).

Lemma nth_firstn_12 (l : list R) (i : nat) :
  (i < 12)%nat -> nth i (firstn 12 l) 0%R = nth i l 0%R.
Proof.
  intros H. rewrite nth_firstn.
  now rewrite (proj2 (Nat.ltb_lt i 12) H).
Qed.

Lemma house_fragments_firstn (chart_type : ChartType)
    (second : option (list R)) (i : nat) :
  (i < 12)%nat ->
  house_fragments str_float r (firstn 12 first) standard first_color tenth
    seventh fourth c1 c3 chart_type (option_map (firstn 12) second) i
  = house_fragments str_float r first standard first_color tenth seventh
      fourth c1 c3 chart_type second i.
Proof.
  intros Hi.
  assert (Hm : (S i mod 12 < 12)%nat) by (apply Nat.mod_upper_bound; lia).
  unfold house_fragments, overlay_house_fragments, natal_house_text_offset,
    natal_house_offset. cbv zeta.
  destruct second as [houses|]; cbn [option_map];
    rewrite ?nth_firstn_12 by lia; reflexivity.
Qed.

(** X20: only the first twelve cusps of either list are read: cutting both
    lists after their twelfth entry changes neither the markup nor the
    exception. *)
Theorem houses_read_twelve_cusps (chart_type : ChartType)
    (second : option (list R)) :
  draw_houses_cusps_and_text_number str_float r (firstn 12 first) standard
    first_color tenth seventh fourth c1 c3 chart_type
    (option_map (firstn 12) second)
  = draw_houses_cusps_and_text_number str_float r first standard first_color
      tenth seventh fourth c1 c3 chart_type second.
Proof.
  assert (Hlen : forall s : option (list R),
             match option_map (firstn 12) s with
             | Some houses => List.length houses
             | None => 0%nat
             end
             = Nat.min 12 match s with
                          | Some houses => List.length houses
                          | None => 0%nat
                          end).
  { intros [l|]; cbn [option_map]; [apply length_firstn | reflexivity]. }
  assert (Hrange :
    house_step_in_range (firstn 12 first) chart_type
      (option_map (firstn 12) second) 10
    <-> house_step_in_range first chart_type second 10).
  { rewrite (proj2 (house_steps_in_range (firstn 12 first) chart_type
                      (option_map (firstn 12) second))).
    rewrite (proj2 (house_steps_in_range first chart_type second)).
    cbv zeta. rewrite Hlen, length_firstn.
    split; intros [H1 H2]; (split; [lia|]); intros Ht; specialize (H2 Ht); lia. }
  destruct (is_transit_or_synastry chart_type) eqn:Hct;
    [destruct second as [houses|]|].
  - assert (Hsec : forall l : list R,
               ~ (is_transit_or_synastry chart_type = true /\ Some l = None))
      by (intros l [_ H]; discriminate H).
    cbn [option_map] in *.
    pose proof (@house_step_outcome str_float r c1 c3 first standard
                  first_color tenth seventh fourth chart_type (Some houses)
                  EmptyString 10 ltac:(lia) (Hsec _)) as [_ [_ [Hin | Hout]]].
    + rewrite (@draw_houses_in_range str_float r c1 c3 first standard
                 first_color tenth seventh fourth chart_type (Some houses)
                 (Hsec _) Hin).
      rewrite (@draw_houses_in_range str_float r c1 c3 (firstn 12 first)
                 standard first_color tenth seventh fourth chart_type
                 (Some (firstn 12 houses)) (Hsec _) (proj2 Hrange Hin)).
      do 2 f_equal. apply map_ext_in. intros i Hi. apply in_seq in Hi.
      apply (@house_fragments_firstn chart_type (Some houses) i). lia.
    + rewrite (@draw_houses_out_of_range str_float r c1 c3 first standard
                 first_color tenth seventh fourth chart_type (Some houses)
                 (Hsec _) Hout).
      apply draw_houses_out_of_range; [apply Hsec|].
      intros Hin. apply Hout. now apply Hrange.
  - unfold draw_houses_cusps_and_text_number. cbn [option_map].
    now rewrite Hct.
  - assert (Hsec : forall s : option (list R),
               ~ (is_transit_or_synastry chart_type = true /\ s = None))
      by (intros s [H _]; congruence).
    pose proof (@house_step_outcome str_float r c1 c3 first standard
                  first_color tenth seventh fourth chart_type second
                  EmptyString 10 ltac:(lia) (Hsec _)) as [_ [_ [Hin | Hout]]].
    + rewrite (@draw_houses_in_range str_float r c1 c3 first standard
                 first_color tenth seventh fourth chart_type second
                 (Hsec _) Hin).
      rewrite (@draw_houses_in_range str_float r c1 c3 (firstn 12 first)
                 standard first_color tenth seventh fourth chart_type
                 (option_map (firstn 12) second) (Hsec _) (proj2 Hrange Hin)).
      do 2 f_equal. apply map_ext_in. intros i Hi. apply in_seq in Hi.
      apply (@house_fragments_firstn chart_type second i). lia.
    + rewrite (@draw_houses_out_of_range str_float r c1 c3 first standard
                 first_color tenth seventh fourth chart_type second
                 (Hsec _) Hout).
      apply draw_houses_out_of_range; [apply Hsec|].
      intros Hin. apply Hout. now apply Hrange.
Qed.

End HousesFirstTwelve.

(** ** AspectRenderer: the aspect grid *)

Section AspectGridShape.

Variable stroke_color : string.

Lemma count_pair_cells_app (xs ys : list grid_cell) :
  count_pair_cells (xs ++ ys) = (count_pair_cells xs + count_pair_cells ys)%nat.
Proof.
  unfold count_pair_cells. now rewrite filter_app, length_app.
Qed.

Lemma count_pair_cells_glyphs (xorb yorb : Z) (l : list Aspect) :
  count_pair_cells (map (GlyphCell xorb yorb) l) = 0%nat.
Proof. induction l as [|x l IH]; [reflexivity | exact IH]. Qed.

Lemma count_pair_cells_row (a : Planet) (bs : list Planet)
    (aspects : list Aspect) (xorb yorb : Z) :
  count_pair_cells (pair_cells a bs aspects xorb yorb) = List.length bs.
Proof.
  revert xorb; induction bs as [|b bs IH]; intros xorb; [reflexivity|].
  cbn [pair_cells].
  change (count_pair_cells (PairCell xorb yorb :: ?l))
    with (S (count_pair_cells l)).
  rewrite count_pair_cells_app, count_pair_cells_glyphs, IH. reflexivity.
Qed.

Lemma count_pair_cells_grid (rows : list Planet) (aspects : list Aspect)
    (xindent yindent : Z) :
  (2 * count_pair_cells (grid_cells rows aspects xindent yindent)
   = List.length rows * (List.length rows - 1))%nat.
Proof.
  revert xindent yindent; induction rows as [|a rest IH]; intros x y;
    [reflexivity|].
  cbn [grid_cells].
  change (count_pair_cells (PlanetCell x y a :: ?l))
    with (count_pair_cells l).
  rewrite count_pair_cells_app, count_pair_cells_row.
  specialize (IH (x + 14)%Z (y - 14)%Z). cbn [List.length]. nia.
Qed.

(** X21: with n active planets the grid has n planet cells and
    n (n - 1) / 2 boxes, one for every pair of active planets, whatever the
    aspects; with no active planet the output is empty. *)
Theorem aspect_grid_is_triangular (planets : list Planet)
    (aspects : list Aspect) :
  let n := List.length (filter is_active planets) in
  let cells := grid_cells (rev (filter is_active planets)) aspects 380 468 in
  draw_aspect_grid stroke_color planets aspects
  = join (map (render_cell (aspect_grid_style stroke_color)) cells)
  /\ List.length (cell_planets cells) = n
  /\ (2 * count_pair_cells cells = n * (n - 1))%nat
  /\ (n = 0%nat ->
      draw_aspect_grid stroke_color planets aspects = EmptyString).
Proof.
  cbv zeta. split; [apply draw_aspect_grid_cells|]. split; [|split].
  - now rewrite cell_planets_grid_cells, length_rev.
  - now rewrite count_pair_cells_grid, length_rev.
  - intros Hn. rewrite draw_aspect_grid_cells.
    destruct (filter is_active planets); [reflexivity | discriminate Hn].
Qed.

Lemma aspect_joins_swap (aspect : Aspect) (a b : Planet) :
  aspect_joins (swap_aspect aspect) a b = aspect_joins aspect a b.
Proof.
  unfold aspect_joins. cbn [swap_aspect p1 p2].
  destruct (p1 aspect =? planet_id a)%Z, (p2 aspect =? planet_id b)%Z,
    (p1 aspect =? planet_id b)%Z, (p2 aspect =? planet_id a)%Z; reflexivity.
Qed.

Lemma glyphs_swap (style : string) (a b : Planet) (xorb yorb : Z)
    (l : list Aspect) :
  map (render_cell style)
    (map (GlyphCell xorb yorb)
       (filter (fun aspect => aspect_joins aspect a b) (map swap_aspect l)))
  = map (render_cell style)
      (map (GlyphCell xorb yorb)
         (filter (fun aspect => aspect_joins aspect a b) l)).
Proof.
  induction l as [|x l IH]; [reflexivity|].
  cbn [map filter]. rewrite aspect_joins_swap.
  destruct (aspect_joins x a b); [|exact IH].
  cbn [map]. now rewrite IH.
Qed.

Lemma pair_cells_swap (style : string) (a : Planet) (bs : list Planet)
    (l : list Aspect) (xorb yorb : Z) :
  map (render_cell style) (pair_cells a bs (map swap_aspect l) xorb yorb)
  = map (render_cell style) (pair_cells a bs l xorb yorb).
Proof.
  revert xorb; induction bs as [|b bs IH]; intros xorb; [reflexivity|].
  cbn [pair_cells map]. rewrite !map_app, glyphs_swap, IH. reflexivity.
Qed.

Lemma grid_cells_swap (style : string) (rows : list Planet) (l : list Aspect)
    (xindent yindent : Z) :
  map (render_cell style) (grid_cells rows (map swap_aspect l) xindent yindent)
  = map (render_cell style) (grid_cells rows l xindent yindent).
Proof.
  revert xindent yindent; induction rows as [|a rest IH]; intros x y;
    [reflexivity|].
  cbn [grid_cells map]. rewrite !map_app, pair_cells_swap, IH. reflexivity.
Qed.

(** X22: an aspect is read as an unordered pair: exchanging p1 and p2 in
    every aspect does not change the grid. *)
Theorem aspect_grid_unordered (planets : list Planet) (aspects : list Aspect) :
  draw_aspect_grid stroke_color planets (map swap_aspect aspects)
  = draw_aspect_grid stroke_color planets aspects.
Proof.
  rewrite !draw_aspect_grid_cells. now rewrite grid_cells_swap.
Qed.

Lemma pair_cells_no_glyph (a : Planet) (bs : list Planet) (l : list Aspect)
    (xorb yorb : Z) :
  (forall aspect b, In aspect l -> In b bs -> aspect_joins aspect a b = false) ->
  pair_cells a bs l xorb yorb = pair_cells a bs [] xorb yorb.
Proof.
  revert xorb; induction bs as [|b bs IH]; intros xorb H; [reflexivity|].
  cbn [pair_cells filter map app].
  assert (E : filter (fun aspect => aspect_joins aspect a b) l = []).
  { clear IH. induction l as [|x l IHl]; [reflexivity|].
    cbn [filter]. rewrite (H x b (or_introl eq_refl) (or_introl eq_refl)).
    apply IHl. intros aspect b' Hin Hb. apply H; [now right | exact Hb]. }
  rewrite E. cbn [map app]. f_equal. apply IH.
  intros aspect b' Hin Hb. apply H; [exact Hin | now right].
Qed.

Lemma grid_cells_no_glyph (rows : list Planet) (l : list Aspect)
    (xindent yindent : Z) :
  (forall aspect a b,
      In aspect l -> In a rows -> In b rows -> aspect_joins aspect a b = false) ->
  grid_cells rows l xindent yindent = grid_cells rows [] xindent yindent.
Proof.
  revert xindent yindent; induction rows as [|a rest IH]; intros x y H;
    [reflexivity|].
  cbn [grid_cells]. f_equal. f_equal.
  - apply pair_cells_no_glyph. intros aspect b Hin Hb.
    apply H; [exact Hin | now left | now right].
  - apply IH. intros aspect a' b Hin Ha Hb.
    apply H; [exact Hin | now right | now right].
Qed.

(** X23: aspects that join no two active planets leave no trace: a glyph is
    drawn only for an aspect whose p1 and p2 are the ids of two active
    planets, so an aspect to an inactive or unknown planet is ignored. *)
Theorem aspect_grid_ignores_unjoined (planets : list Planet)
    (aspects : list Aspect) :
  (forall aspect a b,
      In aspect aspects -> In a planets -> In b planets ->
      is_active a = true -> is_active b = true ->
      aspect_joins aspect a b = false) ->
  draw_aspect_grid stroke_color planets aspects
  = draw_aspect_grid stroke_color planets [].
Proof.
  intros H. rewrite !draw_aspect_grid_cells. do 2 f_equal.
  apply grid_cells_no_glyph. intros aspect a b Hin Ha Hb.
  apply in_rev in Ha, Hb. apply filter_In in Ha, Hb.
  destruct Ha as [Ha Hact]. destruct Hb as [Hb Hbct].
  now apply H.
Qed.

End AspectGridShape.

Lemma aspect_grid_is_triangular_witness :
  List.length (filter is_active sample_inactive_planets) = 0%nat
  /\ draw_aspect_grid "#000" sample_inactive_planets [sample_aspect]
     = EmptyString.
Proof.
  assert (H : List.length (filter is_active sample_inactive_planets) = 0%nat)
    by reflexivity.
  split; [exact H|].
  exact (proj2 (proj2 (proj2 (aspect_grid_is_triangular "#000"
           sample_inactive_planets [sample_aspect]))) H).
Defined.

Lemma aspect_grid_ignores_unjoined_witness :
  draw_aspect_grid "#000" sample_planets [sample_aspect_to_inactive]
  = draw_aspect_grid "#000" sample_planets [].
Proof.
  apply aspect_grid_ignores_unjoined.
  intros aspect a b Hin Ha Hb Hact Hbct.
  destruct Hin as [<- | []].
  unfold sample_planets in Ha, Hb.
  cbn [In] in Ha, Hb.
  destruct Ha as [<- | [<- | [<- | []]]];
    destruct Hb as [<- | [<- | [<- | []]]];
    try discriminate Hact; try discriminate Hbct; reflexivity.
Defined.

(** ** HouseRenderer: the frame of the wheel *)

Section SeventhCusp.

Open Scope R_scope.

Variable str_float : R -> string.
Variables (r c1 c3 : R) (first : list R).
Variables (standard first_color tenth seventh fourth : string).




End SeventhCusp.

